(** * PatternAnalysis-2024, recognition/UNet3D_s4803414

    A shallow embedding of [dataset.py] (the [MRIDataset] sample pipeline)
    and [modules.py] (the [UNet3D] network) together with the properties
    their description states about them.

    Conventions of the embedding.
    - A numpy array or torch tensor is an [ndarray]: its [shape] attribute
      and its elements as nested lists ([body]); [wf] is the representation
      invariant tying the two together.
    - float64 and float32 elements are exact rationals ([Q]); IEEE rounding,
      NaN and infinities are left out, and a cast between float widths is
      the identity.  int64 elements are [Z].
    - A Python exception is a [Raise] result.
    - [random], the file system and [scipy.ndimage] are external: the first
      two are explicit state ([world], [filesystem]), the last an interface
      ([NdImage]) with the documented shape behaviour of the library.
    - The layers of [torch.nn] are embedded by what they do to the shape of
      their input, including the channel checks they perform. *)

From Stdlib Require Import String Ascii.
From Stdlib Require Import ZArith QArith Qminmax Qround Bool Arith Lia List.
From Stdlib Require Import Sorted Permutation Lqa.
Import ListNotations.

#[local] Set Warnings "-register-all".
#[local] Close Scope Q_scope.
#[local] Open Scope nat_scope.

Set Implicit Arguments.

(** ** Exceptions and results *)

Inductive exn : Type :=
| IndexError
| ValueError
| AxisError
| RuntimeError
| FileNotFoundError.

Inductive result (A : Type) : Type :=
| Ok (a : A)
| Raise (e : exn).

Arguments Ok {A} a.
Arguments Raise {A} e.

Definition rbind {A B} (r : result A) (k : A -> result B) : result B :=
  match r with
  | Ok a => k a
  | Raise e => Raise e
  end.

Notation "'try' x <- c1 ;; c2" := (rbind c1 (fun x => c2))
  (at level 61, x pattern, c1 at next level, right associativity).

(** ** Arrays *)

Inductive nested (A : Type) : Type :=
| Scalar (x : A)
| Array (l : list (nested A)).

Arguments Scalar {A} x.
Arguments Array {A} l.

Record ndarray (A : Type) : Type := mk_ndarray {
  shape : list nat;
  body : nested A
}.

Arguments mk_ndarray {A} shape body.

Definition ndim {A} (a : ndarray A) : nat := length (shape a).

Fixpoint has_shape {A} (s : list nat) (b : nested A) : Prop :=
  match s, b with
  | [], Scalar _ => True
  | d :: s', Array l => length l = d /\ Forall (has_shape s') l
  | _, _ => False
  end.

Definition wf {A} (a : ndarray A) : Prop := has_shape (shape a) (body a).

(** Elements in C order, [a.flatten()]. *)
Fixpoint leaves {A} (b : nested A) : list A :=
  match b with
  | Scalar x => [x]
  | Array l => flat_map leaves l
  end.

Definition values {A} (a : ndarray A) : list A := leaves (body a).

(** Elementwise application, as in [a - c], [a / c] and [a.astype(t)]. *)
Fixpoint nmap {A B} (f : A -> B) (b : nested A) : nested B :=
  match b with
  | Scalar x => Scalar (f x)
  | Array l => Array (map (nmap f) l)
  end.

Definition amap {A B} (f : A -> B) (a : ndarray A) : ndarray B :=
  {| shape := shape a; body := nmap f (body a) |}.

(** [a[i0, i1, ...]] with one non-negative integer per axis. *)
Fixpoint item_body {A} (idx : list nat) (b : nested A) : option A :=
  match idx, b with
  | [], Scalar x => Some x
  | i :: idx', Array l =>
      match nth_error l i with
      | Some b' => item_body idx' b'
      | None => None
      end
  | _, _ => None
  end.

Definition item {A} (a : ndarray A) (idx : list nat) : option A :=
  item_body idx (body a).

(** [np.full(s, v)]; [np.zeros(s)] is [np_full s 0]. *)
Fixpoint full_body {A} (s : list nat) (v : A) : nested A :=
  match s with
  | [] => Scalar v
  | d :: s' => Array (repeat (full_body s' v) d)
  end.

Definition np_full {A} (s : list nat) (v : A) : ndarray A :=
  {| shape := s; body := full_body s v |}.

(** Basic slicing with prefixes: [None] is [:], [Some n] is [:n].
    More indices than axes is an [IndexError]. *)
Definition take {A} (o : option nat) (l : list A) : list A :=
  match o with
  | None => l
  | Some n => firstn n l
  end.

Fixpoint slice_body {A} (ix : list (option nat)) (b : nested A) : nested A :=
  match ix, b with
  | o :: ix', Array l => Array (map (slice_body ix') (take o l))
  | _, _ => b
  end.

Definition take_len (o : option nat) (d : nat) : nat :=
  match o with
  | None => d
  | Some n => Nat.min n d
  end.

Fixpoint slice_shape (ix : list (option nat)) (s : list nat) : list nat :=
  match ix, s with
  | o :: ix', d :: s' => take_len o d :: slice_shape ix' s'
  | _, _ => s
  end.

Definition getslice {A} (a : ndarray A) (ix : list (option nat))
  : result (ndarray A) :=
  if length ix <=? ndim a
  then Ok {| shape := slice_shape ix (shape a);
             body := slice_body ix (body a) |}
  else Raise IndexError.

(** [np.flip(a, axis).copy()]: the copy makes the reversed view a fresh
    contiguous array with the same contents. *)
Fixpoint flip_body {A} (axis : nat) (b : nested A) {struct b} : nested A :=
  match b with
  | Scalar x => Scalar x
  | Array l =>
      match axis with
      | O => Array (rev l)
      | S k => Array (map (flip_body k) l)
      end
  end.

Definition np_flip {A} (a : ndarray A) (axis : nat) : result (ndarray A) :=
  if axis <? ndim a
  then Ok {| shape := shape a; body := flip_body axis (body a) |}
  else Raise AxisError.

(** [np.expand_dims(a, axis=0)]. *)
Definition expand_dims0 {A} (a : ndarray A) : ndarray A :=
  {| shape := 1 :: shape a; body := Array [body a] |}.

(** [a.min()] and [a.max()]; both raise [ValueError] on an empty array. *)
Definition amin (a : ndarray Q) : result Q :=
  match values a with
  | [] => Raise ValueError
  | x :: xs => Ok (fold_left Qmin xs x)
  end.

Definition amax (a : ndarray Q) : result Q :=
  match values a with
  | [] => Raise ValueError
  | x :: xs => Ok (fold_left Qmax xs x)
  end.

(** ** A state and exception monad

    [M S A] is a computation that reads and updates a state [S] and either
    returns an [A] or raises.  The state reached is kept on both outcomes,
    so that what happened before an exception can be observed. *)

Definition M (S A : Type) : Type := S -> result A * S.

Definition ret {S A} (a : A) : M S A := fun s => (Ok a, s).

Definition bind {S A B} (c : M S A) (k : A -> M S B) : M S B :=
  fun s =>
    match c s with
    | (Ok a, s') => k a s'
    | (Raise e, s') => (Raise e, s')
    end.

Definition lift {S A} (r : result A) : M S A := fun s => (r, s).

Notation "x <- c1 ;; c2" := (bind c1 (fun x => c2))
  (at level 61, c1 at next level, right associativity).
Notation "' pat <- c1 ;; c2" := (bind c1 (fun x => match x with pat => c2 end))
  (at level 61, pat pattern, c1 at next level, right associativity).

(** * modules.py *)

Module Modules.

(** A tensor size, [t.size()]. *)
Definition size : Type := list nat.

(** The modules of [torch.nn] the file uses, and its two block classes. *)
Inductive module : Type :=
| Conv3d (in_channels out_channels kernel_size stride padding : nat)
| ConvTranspose3d (in_channels out_channels kernel_size stride : nat)
| BatchNorm3d (num_features : nat)
| ReLU
| MaxPool3d (kernel_size stride : nat)
| Sequential (children : list module)
| DoubleConvModule (conv : module)
| ResNetBlockModule (conv1 bn1 relu conv2 bn2 shortcut : module).

(** Output extent of a convolution or pooling window along one axis. *)
Definition window_out (d kernel_size stride padding : nat) : result nat :=
  if d + 2 * padding <? kernel_size then Raise RuntimeError
  else Ok ((d + 2 * padding - kernel_size) / stride + 1).

Definition transpose_out (d kernel_size stride : nat) : result nat :=
  if d =? 0 then Raise RuntimeError
  else Ok ((d - 1) * stride + kernel_size).

Definition spatial3 (f : nat -> result nat) (d h w : nat) : result (list nat) :=
  try d' <- f d ;; try h' <- f h ;; try w' <- f w ;; Ok [d'; h'; w'].

(** In-place [out += s]: [s] must broadcast to the size of [out]. *)
Fixpoint broadcast_rev (out s : list nat) : bool :=
  match s, out with
  | [], _ => true
  | y :: s', x :: out' => ((y =? x) || (y =? 1)) && broadcast_rev out' s'
  | _ :: _, [] => false
  end.

Definition iadd (out s : size) : result size :=
  if broadcast_rev (rev out) (rev s) then Ok out else Raise RuntimeError.

(** The size of [m(x)] for an input of size [x], or the exception torch
    raises when the input does not fit the module. *)
Fixpoint call (m : module) (x : size) {struct m} : result size :=
  match m with
  | Conv3d cin cout k stride padding =>
      match x with
      | [n; c; d; h; w] =>
          if c =? cin
          then try sp <- spatial3 (fun e => window_out e k stride padding) d h w ;;
               Ok (n :: cout :: sp)
          else Raise RuntimeError
      | [c; d; h; w] =>
          if c =? cin
          then try sp <- spatial3 (fun e => window_out e k stride padding) d h w ;;
               Ok (cout :: sp)
          else Raise RuntimeError
      | _ => Raise RuntimeError
      end
  | ConvTranspose3d cin cout k stride =>
      match x with
      | [n; c; d; h; w] =>
          if c =? cin
          then try sp <- spatial3 (fun e => transpose_out e k stride) d h w ;;
               Ok (n :: cout :: sp)
          else Raise RuntimeError
      | [c; d; h; w] =>
          if c =? cin
          then try sp <- spatial3 (fun e => transpose_out e k stride) d h w ;;
               Ok (cout :: sp)
          else Raise RuntimeError
      | _ => Raise RuntimeError
      end
  | BatchNorm3d num_features =>
      match x with
      | [n; c; d; h; w] =>
          if negb (c =? num_features) then Raise RuntimeError
          else if n * d * h * w =? 1 then Raise ValueError
          else Ok x
      | _ => Raise ValueError
      end
  | ReLU => Ok x
  | MaxPool3d k stride =>
      match x with
      | [n; c; d; h; w] =>
          try sp <- spatial3 (fun e => window_out e k stride 0) d h w ;;
          Ok (n :: c :: sp)
      | [c; d; h; w] =>
          try sp <- spatial3 (fun e => window_out e k stride 0) d h w ;;
          Ok (c :: sp)
      | _ => Raise RuntimeError
      end
  | Sequential children =>
      (fix run (ms : list module) (y : size) : result size :=
         match ms with
         | [] => Ok y
         | m' :: ms' => try z <- call m' y ;; run ms' z
         end) children x
  | DoubleConvModule conv => call conv x
  | ResNetBlockModule conv1 bn1 relu conv2 bn2 shortcut =>
      try out <- call conv1 x ;;
      try out <- call bn1 out ;;
      try out <- call relu out ;;
      try out <- call conv2 out ;;
      try out <- call bn2 out ;;
      try sc <- call shortcut x ;;
      try out <- iadd out sc ;;
      call relu out
  end.

Definition DoubleConv (in_channels out_channels : nat) : module :=
  DoubleConvModule
    (Sequential [Conv3d in_channels out_channels 3 1 1;
                 BatchNorm3d out_channels;
                 ReLU;
                 Conv3d out_channels out_channels 3 1 1;
                 BatchNorm3d out_channels;
                 ReLU]).

Definition ResNetBlock (in_channels out_channels stride : nat) : module :=
  ResNetBlockModule
    (Conv3d in_channels out_channels 3 stride 1)
    (BatchNorm3d out_channels)
    ReLU
    (Conv3d out_channels out_channels 3 1 1)
    (BatchNorm3d out_channels)
    (if negb (stride =? 1) || negb (in_channels =? out_channels)
     then Conv3d in_channels out_channels 1 stride 0
     else Sequential []).

Definition contracting_block (in_channels out_channels : nat) : module :=
  Sequential [ResNetBlock in_channels out_channels 1; MaxPool3d 2 2].

Definition expanding_block (in_channels out_channels : nat) : module :=
  Sequential [ConvTranspose3d in_channels out_channels 2 2;
              DoubleConv out_channels out_channels].

Record UNet3D : Type := mk_UNet3D {
  enc1 : module;
  enc2 : module;
  enc3 : module;
  enc4 : module;
  bottleneck : module;
  dec4 : module;
  dec3 : module;
  dec2 : module;
  dec1 : module;
  final_conv : module
}.

Definition UNet3D_init (in_channels out_channels : nat) : UNet3D :=
  {| enc1 := contracting_block in_channels 64;
     enc2 := contracting_block 64 128;
     enc3 := contracting_block 128 256;
     enc4 := contracting_block 256 512;
     bottleneck := ResNetBlock 512 1024 1;
     dec4 := expanding_block (1024 + 512) 512;
     dec3 := expanding_block (512 + 256) 256;
     dec2 := expanding_block (256 + 128) 128;
     dec1 := expanding_block (128 + 64) 64;
     final_conv := Conv3d 64 out_channels 1 1 0 |}.

(** [center_crop] on tensors: [tensor[:, :, :d, :h, :w]] with [d, h, w]
    unpacked from the five entries of the target's size. *)
Definition center_crop {A} (tensor target_tensor : ndarray A)
  : result (ndarray A) :=
  match shape target_tensor with
  | [_; _; d; h; w] =>
      getslice tensor [None; None; Some d; Some h; Some w]
  | _ => Raise ValueError
  end.

(** The size of what [center_crop] returns, from the sizes of its
    arguments. *)
Definition center_crop_size (tensor target_tensor : size) : result size :=
  match target_tensor with
  | [_; _; d; h; w] =>
      if 5 <=? length tensor
      then Ok (slice_shape [None; None; Some d; Some h; Some w] tensor)
      else Raise IndexError
  | _ => Raise ValueError
  end.

Fixpoint size_eqb (a b : size) : bool :=
  match a, b with
  | [], [] => true
  | x :: a', y :: b' => (x =? y) && size_eqb a' b'
  | _, _ => false
  end.

(** [torch.cat((a, b), dim=1)]. *)
Definition cat1 (a b : size) : result size :=
  match a, b with
  | n :: c :: sp, n' :: c' :: sp' =>
      if (n =? n') && size_eqb sp sp'
      then Ok (n :: (c + c') :: sp)
      else Raise RuntimeError
  | _, _ => Raise IndexError
  end.

(** What [forward] writes to standard output: a label and a size. *)
Definition stdout : Type := list (string * size).

Definition print (label : string) (s : size) : M stdout unit :=
  fun out => (Ok tt, out ++ [(label, s)]).

Definition forward (self : UNet3D) (x : size) : M stdout size :=
  e1 <- lift (call (enc1 self) x) ;;
  _ <- print "enc1 shape:"%string e1 ;;
  e2 <- lift (call (enc2 self) e1) ;;
  _ <- print "enc2 shape:"%string e2 ;;
  e3 <- lift (call (enc3 self) e2) ;;
  _ <- print "enc3 shape:"%string e3 ;;
  e4 <- lift (call (enc4 self) e3) ;;
  _ <- print "enc4 shape:"%string e4 ;;
  b <- lift (call (bottleneck self) e4) ;;
  _ <- print "bottleneck shape:"%string b ;;
  cropped <- lift (center_crop_size b e4) ;;
  combined_input_dec4 <- lift (cat1 cropped e4) ;;
  _ <- print "combined_input_dec4 shape:"%string combined_input_dec4 ;;
  d4 <- lift (call (dec4 self) combined_input_dec4) ;;
  _ <- print "dec4 shape:"%string d4 ;;
  cropped <- lift (center_crop_size b e4) ;;
  d4 <- lift (call (dec4 self) cropped) ;;
  _ <- print "dec4 shape before concat:"%string d4 ;;
  d4 <- lift (cat1 d4 e4) ;;
  _ <- print "dec4 shape after concat:"%string d4 ;;
  cropped <- lift (center_crop_size d4 e3) ;;
  d3 <- lift (call (dec3 self) cropped) ;;
  d3 <- lift (cat1 d3 e3) ;;
  cropped <- lift (center_crop_size d3 e2) ;;
  d2 <- lift (call (dec2 self) cropped) ;;
  d2 <- lift (cat1 d2 e2) ;;
  cropped <- lift (center_crop_size d2 e1) ;;
  d1 <- lift (call (dec1 self) cropped) ;;
  d1 <- lift (cat1 d1 e1) ;;
  lift (call (final_conv self) d1).

End Modules.

(** * The collaborators of dataset.py *)

(** ** scipy.ndimage *)

Inductive boundary_mode : Type :=
| Constant
| Nearest.

(** The arguments of a call of [scipy.ndimage.rotate]. *)
Record rotate_args : Type := mk_rotate_args {
  r_angle : Q;
  r_axes : nat * nat;
  r_reshape : bool;
  r_order : nat;
  r_mode : boundary_mode
}.

(** The arguments of a call of [scipy.ndimage.zoom]. *)
Record zoom_args : Type := mk_zoom_args {
  z_zoom : list Q;
  z_order : nat;
  z_mode : boundary_mode
}.

(** The keyword defaults of both functions: [order=3], [mode='constant']. *)
Definition default_order : nat := 3.
Definition default_mode : boundary_mode := Constant.

(** Python's [round] to an integer: half-way cases go to the even
    neighbour. *)
Definition py_round (q : Q) : Z :=
  let f := Qfloor q in
  let r := (q - inject_Z f)%Q in
  match (r ?= 1 # 2)%Q with
  | Lt => f
  | Gt => (f + 1)%Z
  | Eq => if Z.even f then f else (f + 1)%Z
  end.

(** The output shape of [zoom]:
    [tuple(int(round(ii * jj)) for ii, jj in zip(input.shape, zoom))]. *)
Fixpoint zoom_shape (s : list nat) (zs : list Q) : list nat :=
  match s, zs with
  | ii :: s', jj :: zs' =>
      Z.to_nat (py_round (inject_Z (Z.of_nat ii) * jj)%Q) :: zoom_shape s' zs'
  | _, _ => []
  end.

Definition positive_dims (s : list nat) : Prop := Forall (fun d => 0 < d) s.

(** What is used of the library, for arrays of element type [A], [cval]
    being the library's fill value 0.0 in that type:
    - [rotate] without reshape keeps the shape of its input;
    - [zoom] wants one factor per axis and returns the shape above;
    - with [order=0] both only copy elements of their input, or, in [zoom]
      with its default mode 'constant', put the fill value. *)
Class NdImage {A : Type} (cval : A) : Type := {
  rotate : ndarray A -> rotate_args -> result (ndarray A);
  zoom : ndarray A -> zoom_args -> result (ndarray A);
  rotate_keeps_shape : forall a args,
    wf a -> positive_dims (shape a) ->
    r_reshape args = false ->
    fst (r_axes args) < ndim a -> snd (r_axes args) < ndim a ->
    fst (r_axes args) <> snd (r_axes args) ->
    exists a', rotate a args = Ok a' /\ wf a' /\ shape a' = shape a;
  zoom_rank : forall a args,
    length (z_zoom args) <> ndim a -> zoom a args = Raise RuntimeError;
  zoom_gives_shape : forall a args,
    wf a -> positive_dims (shape a) ->
    length (z_zoom args) = ndim a ->
    positive_dims (zoom_shape (shape a) (z_zoom args)) ->
    exists a', zoom a args = Ok a' /\ wf a' /\
               shape a' = zoom_shape (shape a) (z_zoom args);
  rotate_order0 : forall a args a',
    r_order args = 0 -> r_mode args = Nearest ->
    rotate a args = Ok a' -> incl (values a') (values a);
  zoom_order0 : forall a args a',
    z_order args = 0 -> zoom a args = Ok a' ->
    forall v, In v (values a') -> In v (values a) \/ v = cval
}.

(** ** State of the outside world *)

(** The calls that leave this program, in the order they are made. *)
Inductive event : Type :=
| Load (path : string)
| Rotate (args : rotate_args)
| Zoom (args : zoom_args).

(** [rand] is the sequence of numbers in [0, 1) that the generator of the
    [random] module will produce and [cursor] how many were consumed. *)
Record world : Type := mk_world {
  rand : nat -> Q;
  cursor : nat;
  events : list event
}.

Definition emit (e : event) (w : world) : world :=
  {| rand := rand w; cursor := cursor w; events := events w ++ [e] |}.

(** [random.random()]. *)
Definition random_random : M world Q :=
  fun w => (Ok (rand w (cursor w)),
            {| rand := rand w; cursor := S (cursor w); events := events w |}).

(** [random.uniform(a, b)], which is [a + (b - a) * random()]. *)
Definition random_uniform (a b : Q) : M world Q :=
  u <- random_random ;; ret (a + (b - a) * u)%Q.

Definition ndimage_rotate {A} {cval : A} `{NdImage A cval}
  (a : ndarray A) (args : rotate_args)
  : M world (ndarray A) :=
  fun w => (rotate a args, emit (Rotate args) w).

Definition ndimage_zoom {A} {cval : A} `{NdImage A cval}
  (a : ndarray A) (args : zoom_args)
  : M world (ndarray A) :=
  fun w => (zoom a args, emit (Zoom args) w).

(** ** Files *)

(** [listdir d] is the content of directory [d], in the order the system
    lists it; [volume p] is the array [nib.load(p).get_fdata()] returns. *)
Record filesystem : Type := mk_filesystem {
  listdir : string -> option (list string);
  volume : string -> option (ndarray Q)
}.

Definition os_listdir (fs : filesystem) (d : string) : result (list string) :=
  match listdir fs d with
  | Some l => Ok l
  | None => Raise FileNotFoundError
  end.

Definition nib_load_get_fdata (fs : filesystem) (path : string)
  : M world (ndarray Q) :=
  fun w =>
    (match volume fs path with
     | Some a => Ok a
     | None => Raise FileNotFoundError
     end, emit (Load path) w).

(** [s.endswith(suffix)]. *)
Definition endswith (s suffix : string) : bool :=
  let n := String.length s in
  let k := String.length suffix in
  (k <=? n) && String.eqb (String.substring (n - k) k s) suffix.

(** [os.path.join(d, f)] for a file name [f] without separator. *)
Definition os_path_join (d f : string) : string :=
  if String.eqb d EmptyString then f
  else if endswith d "/" then (d ++ f)%string
  else (d ++ "/" ++ f)%string.

(** [sorted] on strings: ascending in the order of code points. *)
Fixpoint insert_sorted (x : string) (l : list string) : list string :=
  match l with
  | [] => [x]
  | y :: l' => if String.leb x y then x :: l else y :: insert_sorted x l'
  end.

Definition sorted (l : list string) : list string :=
  fold_right insert_sorted [] l.

(** [l[idx]] on a Python list: a negative index counts from the end. *)
Definition list_getitem {A} (l : list A) (idx : Z) : result A :=
  let n := Z.of_nat (length l) in
  let i := if (idx <? 0)%Z then (idx + n)%Z else idx in
  if (i <? 0)%Z then Raise IndexError
  else match nth_error l (Z.to_nat i) with
       | Some x => Ok x
       | None => Raise IndexError
       end.

(** * dataset.py *)

Module Dataset.

Section MRIDataset.

Context {ndimage_float : NdImage 0%Q} {ndimage_int : NdImage 0%Z}.

(** The fields [__init__] sets; [transform] is stored and never read. *)
Record MRIDataset : Type := mk_MRIDataset {
  image_dir : string;
  mask_dir : string;
  image_files : list string;
  mask_files : list string;
  augment : bool
}.

Definition nii_gz (f : string) : bool := endswith f ".nii.gz".

Definition init (fs : filesystem) (image_dir mask_dir : string)
  (augment : bool) : result MRIDataset :=
  try image_names <- os_listdir fs image_dir ;;
  try mask_names <- os_listdir fs mask_dir ;;
  Ok {| image_dir := image_dir;
        mask_dir := mask_dir;
        image_files := sorted (filter nii_gz image_names);
        mask_files := sorted (filter nii_gz mask_names);
        augment := augment |}.

(** [__len__] *)
Definition len (self : MRIDataset) : nat := length (image_files self).

(** The index expression [[:, :256, :256, :128]]. *)
Definition window : list (option nat) := [None; Some 256; Some 256; Some 128].

(** Lines 41-42: min-max scaling, skipped when the array is constant. *)
Definition normalize (image : ndarray Q) : result (ndarray Q) :=
  try image_min <- amin image ;;
  try image_max <- amax image ;;
  Ok (if negb (Qeq_bool image_max image_min)
      then amap (fun x => (x - image_min) / (image_max - image_min))%Q image
      else image).

(** [astype(np.float32)]: see the conventions, no rounding. *)
Definition astype_float32 (image : ndarray Q) : ndarray Q := image.

(** [astype(np.int64)] on a float: the fraction is dropped. *)
Definition int64_of_float (q : Q) : Z := Z.quot (Qnum q) (Zpos (Qden q)).

Definition astype_int64 (mask : ndarray Q) : ndarray Z := amap int64_of_float mask.

(** [np.clip(a, 0, None)] *)
Definition np_clip0 (a : ndarray Z) : ndarray Z := amap (Z.max 0) a.

(** [torch.from_numpy] shares the array. *)
Definition torch_from_numpy {A} (a : ndarray A) : ndarray A := a.

Definition sample : Type := (ndarray Q * ndarray Z)%type.

(** [random.random() > 0.5] *)
Definition above_half (u : Q) : bool := negb (Qle_bool u (1 # 2)).

(** Lines 68-78, one of the three flips. *)
Definition flip_step (axis : nat) (p : sample) : M world sample :=
  u <- random_random ;;
  if above_half u then
    image <- lift (np_flip (fst p) axis) ;;
    mask <- lift (np_flip (snd p) axis) ;;
    ret (image, mask)
  else ret p.

Definition image_rotate_args (angle : Q) : rotate_args :=
  {| r_angle := angle; r_axes := (2, 3); r_reshape := false;
     r_order := default_order; r_mode := Nearest |}.

Definition mask_rotate_args (angle : Q) : rotate_args :=
  {| r_angle := angle; r_axes := (2, 3); r_reshape := false;
     r_order := 0; r_mode := Nearest |}.

(** Lines 81-84. *)
Definition rotation_step (p : sample) : M world sample :=
  u <- random_random ;;
  if above_half u then
    angle <- random_uniform (-30) 30 ;;
    image <- ndimage_rotate (fst p) (image_rotate_args angle) ;;
    mask <- ndimage_rotate (snd p) (mask_rotate_args angle) ;;
    ret (image, mask)
  else ret p.

Definition image_zoom_args (zoom_factor : Q) : zoom_args :=
  {| z_zoom := [1%Q; zoom_factor; zoom_factor; zoom_factor];
     z_order := 1; z_mode := default_mode |}.

Definition mask_zoom_args (zoom_factor : Q) : zoom_args :=
  {| z_zoom := [1%Q; zoom_factor; zoom_factor; zoom_factor];
     z_order := 0; z_mode := default_mode |}.

(** Lines 87-90. *)
Definition zoom_step (p : sample) : M world sample :=
  u <- random_random ;;
  if above_half u then
    zoom_factor <- random_uniform (9 # 10) (11 # 10) ;;
    image <- ndimage_zoom (fst p) (image_zoom_args zoom_factor) ;;
    mask <- ndimage_zoom (snd p) (mask_zoom_args zoom_factor) ;;
    ret (image, mask)
  else ret p.

(** Lines 93-94. *)
Definition recrop (p : sample) : M world sample :=
  image <- lift (getslice (fst p) window) ;;
  mask <- lift (getslice (snd p) window) ;;
  ret (image, mask).

Definition apply_augmentation (image : ndarray Q) (mask : ndarray Z)
  : M world sample :=
  p <- flip_step 3 (image, mask) ;;
  p <- flip_step 2 p ;;
  p <- flip_step 1 p ;;
  p <- rotation_step p ;;
  p <- zoom_step p ;;
  recrop p.

(** [__getitem__], reading the files as they are in [fs] at the call. *)
Definition getitem (fs : filesystem) (self : MRIDataset) (idx : Z)
  : M world sample :=
  image_file <- lift (list_getitem (image_files self) idx) ;;
  let image_path := os_path_join (image_dir self) image_file in
  mask_file <- lift (list_getitem (mask_files self) idx) ;;
  let mask_path := os_path_join (mask_dir self) mask_file in
  image <- nib_load_get_fdata fs image_path ;;
  mask <- nib_load_get_fdata fs mask_path ;;
  image <- lift (getslice image window) ;;
  mask <- lift (getslice mask window) ;;
  image <- lift (normalize image) ;;
  let image := astype_float32 image in
  let mask := astype_int64 mask in
  let mask := np_clip0 mask in
  let image := expand_dims0 image in
  let mask := expand_dims0 mask in
  p <- (if augment self then apply_augmentation image mask
        else ret (image, mask)) ;;
  ret (torch_from_numpy (fst p), torch_from_numpy (snd p)).

End MRIDataset.

End Dataset.

Import Modules.
Import Dataset.

(** * Notions the properties are stated with *)

(** Whether a full index falls inside the prefixes of a slice. *)
Fixpoint in_slice (ix : list (option nat)) (idx : list nat) : bool :=
  match ix, idx with
  | o :: ix', i :: idx' =>
      match o with None => true | Some n => i <? n end && in_slice ix' idx'
  | _, _ => true
  end.

(** The slice asks, on every axis it names, for no less than the array
    has there. *)
Fixpoint covers (ix : list (option nat)) (s : list nat) : Prop :=
  match ix, s with
  | o :: ix', d :: s' =>
      match o with None => True | Some n => d <= n end /\ covers ix' s'
  | _, _ => True
  end.

(** No prefix of the slice is empty. *)
Definition positive_prefixes (ix : list (option nat)) : Prop :=
  Forall (fun o => match o with Some n => 0 < n | None => True end) ix.

(** A computation whose outcome does not depend on the state it starts
    from. *)
Definition state_blind {S A} (c : M S A) : Prop :=
  forall s1 s2, fst (c s1) = fst (c s2).

(** What lines 48-49 make of one element of the mask. *)
Definition label (q : Q) : Z := Z.max 0 (int64_of_float q).


(** The world after [n] more numbers were drawn. *)
Definition advance (n : nat) (w : world) : world :=
  {| rand := rand w; cursor := n + cursor w; events := events w |}.

(** The array [np.flip(a, axis).copy()] is when the axis exists. *)
Definition flipped {A} (axis : nat) (a : ndarray A) : ndarray A :=
  {| shape := shape a; body := flip_body axis (body a) |}.

(** The generator makes, of the five decisions of one pass of
    [apply_augmentation], only the flip along [axis] happen; the decisions
    are taken in the order axis 3, 2, 1, rotation, zoom. *)
Definition only_flip (axis : nat) (w : world) : Prop :=
  forall k, k < 5 -> above_half (rand w (k + cursor w)) = (k =? 3 - axis).

(** The extent a window of size 3 (padding 1) or 1 (padding 0) leaves with
    the given stride. *)
Definition strided (stride e : nat) : nat := (e - 1) / stride + 1.


(** The index [np.flip] reads from: along [axis], position [i] of an axis
    of extent [d] becomes [d - 1 - i]; the other positions stay. *)
Fixpoint mirror (axis : nat) (s idx : list nat) : list nat :=
  match axis, s, idx with
  | 0, d :: _, i :: idx' => (d - 1 - i) :: idx'
  | S k, _ :: s', i :: idx' => i :: mirror k s' idx'
  | _, _, _ => idx
  end.

(** Image and mask are well formed and both of shape [s]. *)
Definition aligned (s : list nat) (p : sample) : Prop :=
  wf (fst p) /\ wf (snd p) /\ shape (fst p) = s /\ shape (snd p) = s.


(** The extent [zoom] gives an axis of extent [d] for the factor [z]. *)
Definition zoomed (d : nat) (z : Q) : nat :=
  Z.to_nat (py_round (inject_Z (Z.of_nat d) * z)%Q).

(** [a[:, :256, :256, :128]], for an array that has the four axes. *)
Definition windowed {A} (a : ndarray A) : ndarray A :=
  {| shape := slice_shape window (shape a);
     body := slice_body window (body a) |}.

(** None of the five decisions of one pass of [apply_augmentation] is to
    act. *)
Definition idle (w : world) : Prop :=
  forall k, k < 5 -> above_half (rand w (k + cursor w)) = false.

(** Every call of [zoom] recorded in [w'] was already recorded in [w]. *)
Definition no_new_zoom (w w' : world) : Prop :=
  forall args, In (Zoom args) (events w') -> In (Zoom args) (events w).

Section Described.

Context {ndimage_float : NdImage 0%Q} {ndimage_int : NdImage 0%Z}.

(** Rotating a pair as the description has it: both arrays by one angle in
    the plane of axes 2 and 3, shape kept, edge values repeated, the image
    with spline order [image_order] and the mask with [mask_order]. *)
Definition rotate_pair (image_order mask_order : nat) (angle : Q) (p : sample)
  : M world sample :=
  image <- ndimage_rotate (fst p)
             {| r_angle := angle; r_axes := (2, 3); r_reshape := false;
                r_order := image_order; r_mode := Nearest |} ;;
  mask <- ndimage_rotate (snd p)
            {| r_angle := angle; r_axes := (2, 3); r_reshape := false;
               r_order := mask_order; r_mode := Nearest |} ;;
  ret (image, mask).

End Described.

(** * A resampler and data to run the pipeline on

    [nearest_zoom] resamples by taking, along each axis, the element whose
    index is in proportion; [keep] returns its input, as the library's
    [rotate] does for an angle of 0. *)

(** Resampling to the shape [out], nearest element in proportion. *)
Fixpoint resample_body {A} (out : list nat) (b : nested A) : nested A :=
  match out, b with
  | n :: out', Array l =>
      Array (map (fun i => resample_body out' (nth (i * length l / n) l (Array [])))
                 (seq 0 n))
  | _, _ => b
  end.

Definition nearest_zoom {A} (a : ndarray A) (args : zoom_args)
  : result (ndarray A) :=
  if length (z_zoom args) =? ndim a
  then Ok {| shape := zoom_shape (shape a) (z_zoom args);
             body := resample_body (zoom_shape (shape a) (z_zoom args)) (body a) |}
  else Raise RuntimeError.

Definition keep {A} (a : ndarray A) (_ : rotate_args) : result (ndarray A) :=
  Ok a.

(** A 1x1x2x2x2 tensor holding 0 to 7 in C order. *)
Definition cube : ndarray nat :=
  {| shape := [1; 1; 2; 2; 2];
     body := Array [Array [Array [Array [Array [Scalar 0; Scalar 1];
                                         Array [Scalar 2; Scalar 3]];
                                  Array [Array [Scalar 4; Scalar 5];
                                         Array [Scalar 6; Scalar 7]]]]] |}.

(** A 1x1x2x2 volume with values 1, 3, 2, 5 and a constant one. *)
Definition ramp : ndarray Q :=
  {| shape := [1; 1; 2; 2];
     body := Array [Array [Array [Array [Scalar 1%Q; Scalar 3%Q];
                                  Array [Scalar 2%Q; Scalar 5%Q]]]] |}.


(** A 1x1x2x2 mask with labels -1, 0, 2, -3. *)
Definition signed_mask : ndarray Q :=
  {| shape := [1; 1; 2; 2];
     body := Array [Array [Array [Array [Scalar (-1)%Q; Scalar 0%Q];
                                  Array [Scalar 2%Q; Scalar (-3)%Q]]]] |}.

(** Labels 0, 0, 2, 0 in a 1x1x2x2 mask. *)
Definition small_labels : ndarray Z := np_clip0 (astype_int64 signed_mask).

(** A directory pair with one scan, to run [__getitem__] on. *)
Definition one_scan (image mask : ndarray Q) : filesystem :=
  {| listdir := fun d =>
       if String.eqb d "images" then Some ["notes.txt"; "case_000.nii.gz"]
       else if String.eqb d "masks" then Some ["case_000.nii.gz"]
       else None;
     volume := fun p =>
       if String.eqb p "images/case_000.nii.gz" then Some image
       else if String.eqb p "masks/case_000.nii.gz" then Some mask
       else None |}%string.

(** The dataset [__init__] builds on it. *)
Definition one_scan_dataset (augment : bool) : MRIDataset :=
  {| image_dir := "images"; mask_dir := "masks";
     image_files := ["case_000.nii.gz"]; mask_files := ["case_000.nii.gz"];
     augment := augment |}%string.

(** Two scans in the image directory and one in the mask directory. *)
Definition short_masks : filesystem :=
  {| listdir := fun d =>
       if String.eqb d "images"
       then Some ["b.nii.gz"; "readme.md"; "a.nii.gz"]
       else if String.eqb d "masks" then Some ["a.nii.gz"; "b.nii"]
       else None;
     volume := fun _ => None |}%string.

(** A generator that has the three flips and the rotation happen and the
    zoom not: the draws are 3/4 four times, 1/2 for the angle, then 0. *)
Definition flips_and_rotation : world :=
  {| rand := fun n => nth n [3 # 4; 3 # 4; 3 # 4; 3 # 4; 1 # 2]%Q 0%Q;
     cursor := 0;
     events := [] |}.

(** Another state of the world: later in the stream of a generator that
    gives other numbers, after another call. *)
Definition elsewhere : world :=
  {| rand := fun n => (Z.of_nat n # 100)%Q;
     cursor := 7;
     events := [Load "images/case_007.nii.gz"] |}.

(** A generator whose every fifth number, from position [3 - axis] on,
    is 3/4 and whose other numbers are 1/4. *)
Definition flip_only (axis : nat) : world :=
  {| rand := fun n => if n mod 5 =? 3 - axis then (3 # 4)%Q else (1 # 4)%Q;
     cursor := 0;
     events := [] |}.

(** A generator that has the rotation happen at once, by the angle 0. *)
Definition rotate_now : world :=
  {| rand := fun n => nth n [3 # 4; 1 # 2]%Q 0%Q; cursor := 0; events := [] |}.

(** A generator that has no flip happen, then the rotation, by the angle 0,
    then the zoom, by the factor 0.9: the numbers are 1/4 three times,
    3/4, 1/2, 3/4 and 0. *)
Definition zoom_out : world :=
  {| rand := fun n => nth n [1 # 4; 1 # 4; 1 # 4; 3 # 4; 1 # 2; 3 # 4; 0]%Q 0%Q;
     cursor := 0;
     events := [] |}.

(** Two scans with their masks, the same small volumes under each name. *)
Definition two_scans : filesystem :=
  {| listdir := fun d =>
       if String.eqb d "images" then Some ["s2.nii.gz"; "s1.nii.gz"]
       else if String.eqb d "masks" then Some ["s1.nii.gz"; "s2.nii.gz"]
       else None;
     volume := fun p =>
       if String.prefix "images/" p then Some ramp
       else if String.prefix "masks/" p then Some signed_mask
       else None |}%string.

(** The dataset [__init__] builds on it. *)
Definition two_scans_dataset (augment : bool) : MRIDataset :=
  {| image_dir := "images"; mask_dir := "masks";
     image_files := ["s1.nii.gz"; "s2.nii.gz"];
     mask_files := ["s1.nii.gz"; "s2.nii.gz"];
     augment := augment |}%string.


(** A generator that always gives 3/4. *)
Definition steady : world :=
  {| rand := fun _ => (3 # 4)%Q; cursor := 0; events := [] |}.

(** A generator that always gives 1/4. *)
Definition quiet : world :=
  {| rand := fun _ => (1 # 4)%Q; cursor := 0; events := [] |}.

(** * Properties of the array operations *)

Section NestedInduction.

Variables (A : Type) (P : nested A -> Prop).
Hypothesis P_scalar : forall x, P (Scalar x).
Hypothesis P_array : forall l, Forall P l -> P (Array l).

Fixpoint nested_induction (b : nested A) : P b :=
  match b with
  | Scalar x => P_scalar x
  | Array l =>
      P_array
        ((fix all (l : list (nested A)) : Forall P l :=
            match l with
            | [] => Forall_nil P
            | b' :: l' => Forall_cons b' (nested_induction b') (all l')
            end) l)
  end.

End NestedInduction.

Lemma Forall_take {A} (P : A -> Prop) o (l : list A) :
  Forall P l -> Forall P (take o l).
Proof.
  destruct o as [n|]; simpl; auto.
  intros H. rewrite Forall_forall in *. intros x Hx.
  apply H. rewrite <- (firstn_skipn n l). apply in_or_app. now left.
Qed.

Lemma length_take {A} o (l : list A) : length (take o l) = take_len o (length l).
Proof. destruct o; simpl; auto using length_firstn. Qed.

Lemma has_shape_full {A} (s : list nat) (v : A) : has_shape s (full_body s v).
Proof.
  induction s as [|d s IH]; simpl; auto.
  split; [apply repeat_length|].
  apply Forall_forall. intros x Hx. apply repeat_spec in Hx. now subst.
Qed.

Lemma wf_full {A} (s : list nat) (v : A) : wf (np_full s v).
Proof. apply has_shape_full. Qed.

Lemma has_shape_slice {A} ix : forall s (b : nested A),
  has_shape s b -> has_shape (slice_shape ix s) (slice_body ix b).
Proof.
  induction ix as [|o ix IH]; intros s b H.
  - destruct s, b; exact H.
  - destruct s as [|d s], b as [x|l]; simpl in *; try contradiction; auto.
    destruct H as [Hl Hall]. split.
    + now rewrite length_map, length_take, Hl.
    + apply Forall_map. apply Forall_take.
      eapply Forall_impl; [|exact Hall]. intros; now apply IH.
Qed.

Lemma has_shape_flip {A} axis : forall s (b : nested A),
  has_shape s b -> has_shape s (flip_body axis b).
Proof.
  induction axis as [|k IH]; intros s b H;
    destruct s as [|d s], b as [x|l]; simpl in *; try contradiction; auto;
    destruct H as [Hl Hall]; split.
  - now rewrite length_rev.
  - now apply Forall_rev.
  - now rewrite length_map.
  - apply Forall_map. eapply Forall_impl; [|exact Hall]. intros; now apply IH.
Qed.

Lemma has_shape_nmap {A B} (f : A -> B) s : forall b,
  has_shape s b -> has_shape s (nmap f b).
Proof.
  induction s as [|d s IH]; intros b H; destruct b as [x|l];
    simpl in *; try contradiction; auto.
  destruct H as [Hl Hall]. split.
  - now rewrite length_map.
  - apply Forall_map. eapply Forall_impl; [|exact Hall]. intros; now apply IH.
Qed.

Lemma flip_body_involutive {A} (b : nested A) :
  forall axis, flip_body axis (flip_body axis b) = b.
Proof.
  induction b as [x|l IH] using nested_induction; intros axis.
  - reflexivity.
  - destruct axis as [|k]; simpl.
    + now rewrite rev_involutive.
    + f_equal. rewrite map_map. rewrite <- (map_id l) at 2.
      apply map_ext_Forall. eapply Forall_impl; [|exact IH].
      intros b Hb. apply Hb.
Qed.



Lemma incl_flat_map {A B} (f g : A -> list B) (l l' : list A) :
  incl l l' -> (forall x, In x l -> incl (f x) (g x)) ->
  incl (flat_map f l) (flat_map g l').
Proof.
  intros Hl Hf y Hy. apply in_flat_map in Hy. destruct Hy as [x [Hx Hy]].
  apply in_flat_map. exists x. split; [now apply Hl | now apply (Hf x)].
Qed.

Lemma incl_take {A} o (l : list A) : incl (take o l) l.
Proof.
  destruct o as [n|]; simpl; [|apply incl_refl].
  intros x Hx. rewrite <- (firstn_skipn n l). apply in_or_app. now left.
Qed.

Lemma leaves_slice {A} ix : forall b : nested A,
  incl (leaves (slice_body ix b)) (leaves b).
Proof.
  induction ix as [|o ix IH]; intros b.
  - destruct b; apply incl_refl.
  - destruct b as [x|l]; simpl; [apply incl_refl|].
    rewrite flat_map_concat_map, map_map, <- flat_map_concat_map.
    apply incl_flat_map; [apply incl_take | intros; apply IH].
Qed.


Lemma nth_error_take {A} o (l : list A) i :
  nth_error (take o l) i =
  if match o with None => true | Some n => i <? n end
  then nth_error l i else None.
Proof. destruct o as [n|]; simpl; auto using nth_error_firstn. Qed.

Lemma item_slice {A} ix : forall (b : nested A) idx,
  item_body idx (slice_body ix b) =
  if in_slice ix idx then item_body idx b else None.
Proof.
  induction ix as [|o ix IH]; intros b idx.
  - destruct b; reflexivity.
  - destruct b as [x|l]; simpl.
    + destruct idx; simpl; auto. now destruct (_ && _).
    + destruct idx as [|i idx]; simpl; auto.
      rewrite nth_error_map, nth_error_take.
      destruct (match o with None => true | Some n => i <? n end); simpl; auto.
      destruct (nth_error l i) as [b'|]; simpl.
      * apply IH.
      * now destruct (in_slice ix idx).
Qed.

Lemma slice_shape_length ix : forall s, length (slice_shape ix s) = length s.
Proof.
  induction ix as [|o ix IH]; intros [|d s]; simpl; auto.
Qed.

Lemma slice_shape_covers ix : forall s, covers ix s -> slice_shape ix s = s.
Proof.
  induction ix as [|o ix IH]; intros [|d s] H; simpl in *; auto.
  destruct H as [Ho H]. f_equal; [|now apply IH].
  destruct o; simpl; lia.
Qed.

Lemma slice_body_covers {A} ix : forall s (b : nested A),
  has_shape s b -> covers ix s -> slice_body ix b = b.
Proof.
  induction ix as [|o ix IH]; intros s b Hb Hc.
  - now destruct b.
  - destruct s as [|d s], b as [x|l]; simpl in *; try contradiction; auto.
    destruct Hb as [Hl Hall], Hc as [Ho Hc]. f_equal.
    assert (take o l = l) as ->.
    { destruct o; simpl; auto. apply firstn_all2. lia. }
    rewrite <- (map_id l) at 2. apply map_ext_Forall.
    eapply Forall_impl; [|exact Hall]. intros b Hb. now apply IH with s.
Qed.

(** ** Minimum and maximum *)

Section MinMax.

#[local] Open Scope Q_scope.








End MinMax.

(** ** Labels *)



(** * modules.py: the network *)

Lemma center_crop_shape {A} (tensor target_tensor : ndarray A) :
  match center_crop tensor target_tensor with
  | Ok r => center_crop_size (shape tensor) (shape target_tensor) = Ok (shape r)
  | Raise e => center_crop_size (shape tensor) (shape target_tensor) = Raise e
  end.
Proof.
  unfold center_crop, center_crop_size, getslice, ndim.
  destruct (shape target_tensor) as [|? [|? [|d [|h [|w [|? ?]]]]]]; auto.
  cbn [length]. now destruct (5 <=? length (shape tensor)).
Qed.

(** C1 (the code departs from it).  On the reference scenario, a network
    built with in_channels=1 and out_channels=4 and an input of size
    (1,1,256,256,128), [forward] does not return a tensor of size
    (1,4,256,256,128): after the seven sizes below are printed, the second
    call of [dec4] (line 99) receives the cropped bottleneck alone, 1024
    channels where its transposed convolution was built for 1024 + 512, and
    raises. *)
Theorem forward_reference_scenario_raises :
  forward (UNet3D_init 1 4) [1; 1; 256; 256; 128] [] =
  (Raise RuntimeError,
   [("enc1 shape:"%string, [1; 64; 128; 128; 64]);
    ("enc2 shape:"%string, [1; 128; 64; 64; 32]);
    ("enc3 shape:"%string, [1; 256; 32; 32; 16]);
    ("enc4 shape:"%string, [1; 512; 16; 16; 8]);
    ("bottleneck shape:"%string, [1; 1024; 16; 16; 8]);
    ("combined_input_dec4 shape:"%string, [1; 1536; 16; 16; 8]);
    ("dec4 shape:"%string, [1; 512; 32; 32; 16])]).
Proof. vm_compute. reflexivity. Qed.

(** C4.  [center_crop] of a (1,1,130,130,65) tensor against a
    (1,1,128,128,64) target returns a (1,1,128,128,64) tensor that agrees
    with the larger one at every index it has; in general the result is the
    prefix of the tensor anchored at index 0 on the three spatial axes, of
    extent d, h, w taken from the target (and no more than the tensor has):
    an index is in the result exactly when it is below d, h, w, and holds
    what the tensor holds there. *)
Theorem center_crop_prefix_slice :
  (forall A (tensor target_tensor : ndarray A),
      wf tensor ->
      shape tensor = [1; 1; 130; 130; 65] ->
      shape target_tensor = [1; 1; 128; 128; 64] ->
      exists r, center_crop tensor target_tensor = Ok r /\ wf r /\
                shape r = [1; 1; 128; 128; 64] /\
                forall i j k l m, k < 128 -> l < 128 -> m < 64 ->
                  item r [i; j; k; l; m] = item tensor [i; j; k; l; m])
  /\
  (forall A (tensor target_tensor : ndarray A) n c D H W n' c' d h w,
      wf tensor ->
      shape tensor = [n; c; D; H; W] ->
      shape target_tensor = [n'; c'; d; h; w] ->
      exists r, center_crop tensor target_tensor = Ok r /\ wf r /\
                shape r = [n; c; Nat.min d D; Nat.min h H; Nat.min w W] /\
                forall i j k l m,
                  item r [i; j; k; l; m] =
                  if (k <? d) && (l <? h) && (m <? w)
                  then item tensor [i; j; k; l; m] else None).
Proof.
  assert (forall A (tensor target_tensor : ndarray A) n c D H W n' c' d h w,
      wf tensor ->
      shape tensor = [n; c; D; H; W] ->
      shape target_tensor = [n'; c'; d; h; w] ->
      exists r, center_crop tensor target_tensor = Ok r /\ wf r /\
                shape r = [n; c; Nat.min d D; Nat.min h H; Nat.min w W] /\
                forall i j k l m,
                  item r [i; j; k; l; m] =
                  if (k <? d) && (l <? h) && (m <? w)
                  then item tensor [i; j; k; l; m] else None) as general.
  { intros A tensor target n c D H W n' c' d h w Hwf Hs Ht.
    unfold center_crop, getslice, ndim. rewrite Ht, Hs. cbn [length Nat.leb].
    eexists. split; [reflexivity|]. split; [|split].
    - unfold wf. cbn [shape body]. rewrite <- Hs.
      apply has_shape_slice. exact Hwf.
    - reflexivity.
    - intros i j k l m. unfold item. cbn [body]. rewrite item_slice.
      cbn [in_slice]. rewrite !andb_true_l, andb_true_r, andb_assoc.
      reflexivity. }
  split; [|exact general].
  intros A tensor target Hwf Hs Ht.
  destruct (general A tensor target _ _ _ _ _ _ _ _ _ _ Hwf Hs Ht)
    as [r [Hr [Hwfr [Hsr Hitem]]]].
  exists r. repeat split; auto.
  intros i j k l m Hk Hl Hm. rewrite Hitem.
  apply Nat.ltb_lt in Hk, Hl, Hm. now rewrite Hk, Hl, Hm.
Qed.

Lemma center_crop_prefix_slice_witness :
  (exists r, center_crop (np_full [1; 1; 130; 130; 65] 7)
                         (np_full [1; 1; 128; 128; 64] 0) = Ok r /\ wf r /\
             shape r = [1; 1; 128; 128; 64] /\
             forall i j k l m, k < 128 -> l < 128 -> m < 64 ->
               item r [i; j; k; l; m] =
               item (np_full [1; 1; 130; 130; 65] 7) [i; j; k; l; m])
  /\
  (exists r, center_crop (np_full [1; 2; 3; 3; 2] 7)
                         (np_full [1; 1; 2; 4; 1] 0) = Ok r /\ wf r /\
             shape r = [1; 2; Nat.min 2 3; Nat.min 4 3; Nat.min 1 2] /\
             forall i j k l m,
               item r [i; j; k; l; m] =
               if (k <? 2) && (l <? 4) && (m <? 1)
               then item (np_full [1; 2; 3; 3; 2] 7) [i; j; k; l; m]
               else None).
Proof.
  split.
  - apply (proj1 center_crop_prefix_slice);
      [apply wf_full | reflexivity | reflexivity].
  - apply (proj2 center_crop_prefix_slice) with (n' := 1) (c' := 1);
      [apply wf_full | reflexivity | reflexivity].
Defined.

Example center_crop_cube :
  center_crop cube (np_full [3; 4; 1; 2; 1] 0) =
  Ok {| shape := [1; 1; 1; 2; 1];
        body := Array [Array [Array [Array [Array [Scalar 0];
                                            Array [Scalar 2]]]]] |}.
Proof. reflexivity. Qed.

(** * Running computations *)

Lemma bind_Ok {S A B} (c : M S A) (k : A -> M S B) s a s1 :
  c s = (Ok a, s1) -> bind c k s = k a s1.
Proof. unfold bind. now intros ->. Qed.

Lemma bind_Raise {S A B} (c : M S A) (k : A -> M S B) s e s1 :
  c s = (Raise e, s1) -> bind c k s = (Raise e, s1).
Proof. unfold bind. now intros ->. Qed.

Lemma bind_Ok_inv {S A B} (c : M S A) (k : A -> M S B) s b s' :
  bind c k s = (Ok b, s') ->
  exists a s1, c s = (Ok a, s1) /\ k a s1 = (Ok b, s').
Proof.
  unfold bind. destruct (c s) as [[a|e] s1]; [eauto | discriminate].
Qed.

Lemma lift_Ok_inv {S A} (r : result A) (s s' : S) a :
  lift r s = (Ok a, s') -> r = Ok a /\ s' = s.
Proof. unfold lift. now intros [= -> ->]. Qed.

Lemma ret_Ok_inv {S A} (x a : A) (s s' : S) :
  ret x s = (Ok a, s') -> a = x /\ s' = s.
Proof. unfold ret. now intros [= -> ->]. Qed.

Lemma state_blind_ret {S A} (a : A) : state_blind (ret (S := S) a).
Proof. now intros s1 s2. Qed.

Lemma state_blind_lift {S A} (r : result A) : state_blind (lift (S := S) r).
Proof. now intros s1 s2. Qed.

Lemma state_blind_bind {S A B} (c : M S A) (k : A -> M S B) :
  state_blind c -> (forall a, state_blind (k a)) -> state_blind (bind c k).
Proof.
  intros Hc Hk s1 s2. unfold bind. specialize (Hc s1 s2).
  destruct (c s1) as [[a1|e1] t1], (c s2) as [[a2|e2] t2]; simpl in Hc;
    try discriminate; injection Hc as ->; auto.
  apply Hk.
Qed.

Lemma state_blind_load fs path : state_blind (nib_load_get_fdata fs path).
Proof. now intros s1 s2. Qed.

Lemma Ok_inj {A} (a b : A) : Ok a = Ok b -> a = b.
Proof. now intros [= ->]. Qed.

Ltac bind_inv H a s Hc :=
  apply bind_Ok_inv in H; destruct H as (a & s & Hc & H).

Ltac lift_inv H := apply lift_Ok_inv in H; destruct H as [H ?]; subst.

Ltac ret_inv H := apply ret_Ok_inv in H; destruct H as [? ?]; subst.

(** ** [forward] returns on no input *)

Lemma rbind_Ok_inv {A B} (r : result A) (k : A -> result B) b :
  rbind r k = Ok b -> exists a, r = Ok a /\ k a = Ok b.
Proof. destruct r as [a|e]; simpl; [eauto | discriminate]. Qed.

Lemma spatial3_Ok f d h w sp :
  spatial3 f d h w = Ok sp -> exists d' h' w', sp = [d'; h'; w'].
Proof.
  unfold spatial3. intros H.
  apply rbind_Ok_inv in H. destruct H as [d' [_ H]].
  apply rbind_Ok_inv in H. destruct H as [h' [_ H]].
  apply rbind_Ok_inv in H. destruct H as [w' [_ H]].
  apply Ok_inj in H. eauto.
Qed.

Lemma BatchNorm3d_Ok c x y :
  call (BatchNorm3d c) x = Ok y ->
  y = x /\ exists n d h w, x = [n; c; d; h; w].
Proof.
  cbn [call]. destruct x as [|n [|c' [|d [|h [|w [|? ?]]]]]]; try discriminate.
  destruct (Nat.eqb_spec c' c) as [->|]; [|discriminate]. cbn [negb].
  destruct (_ =? 1); [discriminate|]. intros H. apply Ok_inj in H.
  split; eauto.
Qed.

Lemma iadd_Ok out s o : iadd out s = Ok o -> o = out.
Proof.
  unfold iadd. destruct (broadcast_rev _ _); [|discriminate].
  intros H. now apply Ok_inj in H.
Qed.

(** A residual block returns five axes, the second of them the number of
    output channels. *)
Lemma ResNetBlock_channels cin cout stride x b :
  call (ResNetBlock cin cout stride) x = Ok b ->
  exists n d h w, b = [n; cout; d; h; w].
Proof.
  unfold ResNetBlock. cbn [call]. intros H.
  apply rbind_Ok_inv in H. destruct H as [o1 [_ H]].
  apply rbind_Ok_inv in H. destruct H as [o2 [_ H]].
  apply rbind_Ok_inv in H. destruct H as [o3 [_ H]].
  apply rbind_Ok_inv in H. destruct H as [o4 [_ H]].
  apply rbind_Ok_inv in H. destruct H as [o5 [Hbn H]].
  apply rbind_Ok_inv in H. destruct H as [sc [_ H]].
  apply rbind_Ok_inv in H. destruct H as [o6 [Hadd H]].
  apply Ok_inj in H. subst b. apply iadd_Ok in Hadd. subst o6.
  apply BatchNorm3d_Ok in Hbn. destruct Hbn as [-> Hshape]. exact Hshape.
Qed.

Lemma center_crop_size_channels n c d h w target r :
  center_crop_size [n; c; d; h; w] target = Ok r ->
  exists d' h' w', r = [n; c; d'; h'; w'].
Proof.
  unfold center_crop_size.
  destruct target as [|? [|? [|td [|th [|tw [|? ?]]]]]]; try discriminate.
  cbn [length Nat.leb slice_shape]. intros H. apply Ok_inj in H. eauto.
Qed.

(** An expanding block raises on a tensor that has not the channels its
    transposed convolution was built for. *)
Lemma expanding_block_channels cin cout n c d h w :
  c <> cin ->
  call (expanding_block cin cout) [n; c; d; h; w] = Raise RuntimeError.
Proof.
  intros Hc. unfold expanding_block. cbn [call].
  apply Nat.eqb_neq in Hc. now rewrite Hc.
Qed.

(** Whatever the channel counts the network is built with and whatever the
    size of the input, [forward] raises: if it gets as far as line 99, the
    cropped bottleneck it passes to [dec4] has 1024 channels and not the
    1024 + 512 that [dec4] takes. *)
Lemma forward_never_returns in_channels out_channels x out :
  exists e out',
    forward (UNet3D_init in_channels out_channels) x out = (Raise e, out').
Proof.
  destruct (forward (UNet3D_init in_channels out_channels) x out)
    as [[r|e] out'] eqn:H; [exfalso | eauto].
  unfold forward in H. cbn [enc1 enc2 enc3 enc4 bottleneck dec4 UNet3D_init] in H.
  bind_inv H e1 s1 H1. bind_inv H u1 t1 P1.
  bind_inv H e2 s2 H2. bind_inv H u2 t2 P2.
  bind_inv H e3 s3 H3. bind_inv H u3 t3 P3.
  bind_inv H e4 s4 H4. bind_inv H u4 t4 P4.
  bind_inv H b s5 H5. bind_inv H u5 t5 P5.
  bind_inv H cropped s6 H6. bind_inv H combined s7 H7. bind_inv H u6 t6 P6.
  bind_inv H d4 s8 H8. bind_inv H u7 t7 P7.
  bind_inv H cropped' s9 H9. bind_inv H d4' s10 H10.
  clear H. lift_inv H5. lift_inv H9. lift_inv H10.
  apply ResNetBlock_channels in H5. destruct H5 as (n & d & h & w & ->).
  apply center_crop_size_channels in H9. destruct H9 as (d' & h' & w' & ->).
  rewrite expanding_block_channels in H10; [discriminate | lia].
Qed.

(** * The resampler has what the interface asks *)

Lemma has_shape_resample {A} out : forall s (b : nested A),
  has_shape s b -> length out = length s -> positive_dims s ->
  has_shape out (resample_body out b).
Proof.
  induction out as [|n out IH]; intros s b Hb Hlen Hpos.
  - destruct s; [|discriminate]. destruct b; auto.
  - destruct s as [|d s]; [discriminate|].
    destruct b as [x|l]; simpl in Hb; [contradiction|].
    destruct Hb as [Hl Hall]. inversion Hpos as [|? ? Hd Hpos']; subst.
    simpl. split; [now rewrite length_map, length_seq|].
    apply Forall_map, Forall_forall. intros i Hi. apply in_seq in Hi.
    apply IH with s; auto.
    rewrite Forall_forall in Hall. apply Hall, nth_In.
    apply Nat.Div0.div_lt_upper_bound. nia.
Qed.

Lemma leaves_resample {A} out : forall b : nested A,
  incl (leaves (resample_body out b)) (leaves b).
Proof.
  induction out as [|n out IH]; intros b.
  - destruct b; apply incl_refl.
  - destruct b as [x|l]; simpl; [apply incl_refl|].
    intros y Hy. apply in_flat_map in Hy. destruct Hy as [b' [Hb' Hy]].
    apply in_map_iff in Hb'. destruct Hb' as [i [<- _]].
    apply IH in Hy.
    destruct (nth_in_or_default (i * length l / n) l (Array [])) as [Hin|Heq].
    + apply in_flat_map. eauto.
    + rewrite Heq in Hy. destruct Hy.
Qed.

Lemma zoom_shape_length s : forall zs,
  length zs = length s -> length (zoom_shape s zs) = length s.
Proof.
  induction s as [|d s IH]; intros [|z zs] H; simpl in *; auto; try discriminate.
Qed.

Lemma keep_keeps_shape {A} (a : ndarray A) args :
  wf a -> positive_dims (shape a) ->
  r_reshape args = false ->
  fst (r_axes args) < ndim a -> snd (r_axes args) < ndim a ->
  fst (r_axes args) <> snd (r_axes args) ->
  exists a', keep a args = Ok a' /\ wf a' /\ shape a' = shape a.
Proof. intros Hwf _ _ _ _ _. exists a. auto. Qed.

Lemma nearest_zoom_rank {A} (a : ndarray A) args :
  length (z_zoom args) <> ndim a -> nearest_zoom a args = Raise RuntimeError.
Proof.
  intros H. unfold nearest_zoom. apply Nat.eqb_neq in H. now rewrite H.
Qed.

Lemma nearest_zoom_gives_shape {A} (a : ndarray A) args :
  wf a -> positive_dims (shape a) ->
  length (z_zoom args) = ndim a ->
  positive_dims (zoom_shape (shape a) (z_zoom args)) ->
  exists a', nearest_zoom a args = Ok a' /\ wf a' /\
             shape a' = zoom_shape (shape a) (z_zoom args).
Proof.
  intros Hwf Hpos Hlen _. unfold nearest_zoom.
  rewrite Hlen, Nat.eqb_refl. eexists. split; [reflexivity|]. split; auto.
  unfold wf. cbn [shape body]. apply has_shape_resample with (shape a); auto.
  now apply zoom_shape_length.
Qed.

Lemma keep_order0 {A} (a : ndarray A) args a' :
  r_order args = 0 -> r_mode args = Nearest ->
  keep a args = Ok a' -> incl (values a') (values a).
Proof. intros _ _ [= <-]. apply incl_refl. Qed.

Lemma nearest_zoom_order0 {A} (cval : A) (a : ndarray A) args a' :
  z_order args = 0 -> nearest_zoom a args = Ok a' ->
  forall v, In v (values a') -> In v (values a) \/ v = cval.
Proof.
  intros _. unfold nearest_zoom.
  destruct (_ =? _); [|discriminate]. intros [= <-] v Hv.
  left. now apply leaves_resample in Hv.
Qed.

(** The resampler as an implementation of the interface. *)
Definition nearest {A : Type} (cval : A) : NdImage cval :=
  {| rotate := keep;
     zoom := nearest_zoom;
     rotate_keeps_shape := keep_keeps_shape;
     zoom_rank := nearest_zoom_rank;
     zoom_gives_shape := nearest_zoom_gives_shape;
     rotate_order0 := keep_order0;
     zoom_order0 := nearest_zoom_order0 cval |}.

(** * dataset.py: normalisation and labels *)





Example normalize_ramp :
  option_map (map Qred)
    (match normalize ramp with Ok r => Some (values r) | Raise _ => None end) =
  Some [0%Q; (1 # 2)%Q; (1 # 4)%Q; 1%Q].
Proof. reflexivity. Qed.







(** * dataset.py: augmentation steps and the mask *)



Section MaskValues.

Context {ndimage_float : NdImage 0%Q} {ndimage_int : NdImage 0%Z}.






(** What [__getitem__] went through when it returns. *)
Lemma getitem_Ok_inv fs self idx w r w' :
  getitem fs self idx w = (Ok r, w') ->
  exists image_file mask_file image mask ci cm ni,
    list_getitem (image_files self) idx = Ok image_file /\
    list_getitem (mask_files self) idx = Ok mask_file /\
    volume fs (os_path_join (image_dir self) image_file) = Some image /\
    volume fs (os_path_join (mask_dir self) mask_file) = Some mask /\
    getslice image window = Ok ci /\
    getslice mask window = Ok cm /\
    normalize ci = Ok ni /\
    (if augment self
     then apply_augmentation (expand_dims0 (astype_float32 ni))
            (expand_dims0 (np_clip0 (astype_int64 cm)))
     else ret (expand_dims0 (astype_float32 ni),
               expand_dims0 (np_clip0 (astype_int64 cm))))
      (emit (Load (os_path_join (mask_dir self) mask_file))
         (emit (Load (os_path_join (image_dir self) image_file)) w))
    = (Ok r, w').
Proof.
  unfold getitem. intros H.
  bind_inv H image_file s1 H1. lift_inv H1.
  bind_inv H mask_file s2 H2. lift_inv H2.
  bind_inv H image s3 H3. bind_inv H mask s4 H4.
  bind_inv H ci s5 H5. lift_inv H5.
  bind_inv H cm s6 H6. lift_inv H6.
  bind_inv H ni s7 H7. lift_inv H7.
  bind_inv H p s8 H8. ret_inv H.
  unfold nib_load_get_fdata in H3, H4.
  destruct (volume fs (os_path_join (image_dir self) image_file)) as [vi|] eqn:Ei;
    [|discriminate].
  destruct (volume fs (os_path_join (mask_dir self) mask_file)) as [vm|] eqn:Em;
    [|discriminate].
  injection H3 as <- <-. injection H4 as <- <-.
  exists image_file, mask_file, vi, vm, ci, cm, ni.
  repeat split; auto. rewrite H8. now destruct p.
Qed.

End MaskValues.

Section MaskLabels.

Context {ndimage_float : NdImage 0%Q} {ndimage_int : NdImage 0%Z}.


End MaskLabels.

Lemma init_one_scan image mask augment :
  init (one_scan image mask) "images" "masks" augment =
  Ok (one_scan_dataset augment).
Proof. reflexivity. Qed.


(** * dataset.py: listing, length and indexing *)

Lemma length_insert_sorted x l : length (insert_sorted x l) = S (length l).
Proof.
  induction l as [|y l IH]; simpl; auto.
  destruct (String.leb x y); simpl; auto.
Qed.

Lemma length_sorted l : length (sorted l) = length l.
Proof.
  induction l as [|x l IH]; simpl; auto.
  now rewrite length_insert_sorted, IH.
Qed.

Lemma list_getitem_inside {A} (l : list A) (n : nat) :
  n < length l -> exists x, list_getitem l (Z.of_nat n) = Ok x.
Proof.
  intros H. unfold list_getitem.
  destruct (Z.ltb_spec (Z.of_nat n) 0); [lia|].
  destruct (Z.ltb_spec (Z.of_nat n) 0); [lia|].
  rewrite Nat2Z.id. destruct (nth_error l n) eqn:E; eauto.
  apply nth_error_None in E. lia.
Qed.

Lemma list_getitem_at_length {A} (l : list A) :
  list_getitem l (Z.of_nat (length l)) = Raise IndexError.
Proof.
  unfold list_getitem.
  destruct (Z.ltb_spec (Z.of_nat (length l)) 0); [lia|].
  destruct (Z.ltb_spec (Z.of_nat (length l)) 0); [lia|].
  rewrite Nat2Z.id.
  now replace (nth_error l (length l)) with (@None A)
    by (symmetry; apply nth_error_None; lia).
Qed.

Section Indexing.

Context {ndimage_float : NdImage 0%Q} {ndimage_int : NdImage 0%Z}.

(** C10.  [__len__] is the number of names ending in '.nii.gz' in the image
    directory, whatever the mask directory holds; when the mask directory
    has fewer such names, some index below the length makes [__getitem__]
    raise [IndexError] with the world as it was: no file was loaded (and
    this whatever the files are when it is called). *)
Theorem len_counts_images_and_short_masks_raise :
  forall fs image_dir mask_dir augment self image_names mask_names,
    init fs image_dir mask_dir augment = Ok self ->
    listdir fs image_dir = Some image_names ->
    listdir fs mask_dir = Some mask_names ->
    len self = length (filter nii_gz image_names) /\
    (length (filter nii_gz mask_names) < length (filter nii_gz image_names) ->
     exists i, (0 <= i < Z.of_nat (len self))%Z /\
               forall fs' w, getitem fs' self i w = (Raise IndexError, w)).
Proof.
  intros fs idir mdir aug self inames mnames Hinit Hi Hm.
  unfold init, os_listdir in Hinit. rewrite Hi, Hm in Hinit. simpl in Hinit.
  apply Ok_inj in Hinit. subst self. unfold len. cbn [image_files].
  rewrite length_sorted. split; [reflexivity|].
  intros Hlt. exists (Z.of_nat (length (filter nii_gz mnames))).
  split; [lia|]. intros fs' w. unfold getitem. cbn [image_files mask_files].
  destruct (@list_getitem_inside _ (sorted (filter nii_gz inames))
              (length (filter nii_gz mnames))) as [f Hf].
  { now rewrite length_sorted. }
  unfold bind at 1. unfold lift at 1. rewrite Hf.
  unfold bind at 1. unfold lift at 1.
  rewrite <- (length_sorted (filter nii_gz mnames)).
  now rewrite list_getitem_at_length.
Qed.

(** C9.  With augmentation off, what [__getitem__] returns for an index and
    given files is the same from any state of the generator and of the
    call history, and it leaves the generator where it was. *)
Theorem getitem_without_augmentation_is_deterministic :
  forall fs self idx w1 w2,
    augment self = false ->
    fst (getitem fs self idx w1) = fst (getitem fs self idx w2) /\
    cursor (snd (getitem fs self idx w1)) = cursor w1.
Proof.
  intros fs self idx w1 w2 Haug. split.
  - revert w1 w2. change (state_blind (getitem fs self idx)).
    unfold getitem. rewrite Haug.
    repeat first [ apply state_blind_lift | apply state_blind_ret
                 | apply state_blind_load
                 | apply state_blind_bind; [|intros ?] ].
  - unfold getitem. rewrite Haug. unfold bind, lift, ret, nib_load_get_fdata.
    repeat match goal with
           | |- context [match ?r with Ok _ => _ | Raise _ => _ end] =>
               destruct r
           | |- context [match ?r with Some _ => _ | None => _ end] =>
               destruct r
           end; reflexivity.
Qed.

End Indexing.

Lemma len_counts_images_and_short_masks_raise_witness :
  exists self,
    init short_masks "images" "masks" false = Ok self /\
    len self = 2 /\
    exists i, (0 <= i < Z.of_nat (len self))%Z /\
              forall fs' w,
                getitem (ndimage_float := nearest 0%Q) (ndimage_int := nearest 0%Z)
                  fs' self i w = (Raise IndexError, w).
Proof.
  eexists. split; [reflexivity|].
  destruct (@len_counts_images_and_short_masks_raise (nearest 0%Q) (nearest 0%Z)
              short_masks "images"%string "masks"%string false _
              _ _ eq_refl eq_refl eq_refl) as [Hlen Hraise].
  split; [exact Hlen|]. apply Hraise. vm_compute. lia.
Defined.

Example sorted_image_files :
  option_map image_files
    (match init short_masks "images" "masks" false with
     | Ok self => Some self
     | Raise _ => None
     end) = Some ["a.nii.gz"; "b.nii.gz"]%string.
Proof. reflexivity. Qed.

Lemma getitem_without_augmentation_is_deterministic_witness :
  fst (getitem (ndimage_float := nearest 0%Q) (ndimage_int := nearest 0%Z)
         (one_scan ramp signed_mask) (one_scan_dataset false) 0
         flips_and_rotation) =
  fst (getitem (ndimage_float := nearest 0%Q) (ndimage_int := nearest 0%Z)
         (one_scan ramp signed_mask) (one_scan_dataset false) 0 elsewhere)
  /\
  cursor (snd (getitem (ndimage_float := nearest 0%Q) (ndimage_int := nearest 0%Z)
                 (one_scan ramp signed_mask) (one_scan_dataset false) 0
                 flips_and_rotation)) = cursor flips_and_rotation.
Proof.
  apply (@getitem_without_augmentation_is_deterministic
           (nearest 0%Q) (nearest 0%Z)).
  reflexivity.
Defined.

(** * dataset.py: the shape of a sample *)

Lemma leaves_nonempty {A} s : forall b : nested A,
  has_shape s b -> positive_dims s -> leaves b <> [].
Proof.
  induction s as [|d s IH]; intros b Hb Hpos;
    destruct b as [x|l]; simpl in Hb; try contradiction.
  - discriminate.
  - destruct Hb as [Hl Hall]. inversion Hpos as [|? ? Hd Hpos']; subst.
    destruct l as [|b l]; [simpl in Hd; lia|].
    inversion Hall; subst. simpl. intros E. apply app_eq_nil in E.
    destruct E as [E _]. now apply (IH b).
Qed.

Lemma normalize_total (a : ndarray Q) :
  values a <> [] ->
  exists r, normalize a = Ok r /\ shape r = shape a /\ (wf a -> wf r).
Proof.
  intros Hne. unfold normalize, amin, amax.
  destruct (values a) as [|x xs]; [contradiction|]. simpl.
  destruct (Qeq_bool _ _); simpl; eexists; split; try reflexivity; split; auto.
  intros Hwf. now apply has_shape_nmap.
Qed.

Lemma positive_slice_shape ix : forall s,
  positive_prefixes ix -> positive_dims s -> positive_dims (slice_shape ix s).
Proof.
  induction ix as [|o ix IH]; intros s Hix Hs.
  - now destruct s.
  - destruct s as [|d s]; simpl; auto.
    inversion Hix; inversion Hs; subst. constructor; [|now apply IH].
    destruct o; simpl; lia.
Qed.

Lemma positive_window : positive_prefixes window.
Proof. repeat constructor. Qed.

Lemma getslice_Ok {A} (a : ndarray A) ix :
  length ix <= ndim a ->
  getslice a ix = Ok {| shape := slice_shape ix (shape a);
                        body := slice_body ix (body a) |}.
Proof. intros H. unfold getslice. apply Nat.leb_le in H. now rewrite H. Qed.

Lemma getslice_Raise {A} (a : ndarray A) ix :
  ndim a < length ix -> getslice a ix = Raise IndexError.
Proof.
  intros H. unfold getslice. apply Nat.leb_gt in H. now rewrite H.
Qed.

Lemma getslice_covers {A} (a : ndarray A) ix :
  wf a -> covers ix (shape a) -> length ix <= ndim a -> getslice a ix = Ok a.
Proof.
  intros Hwf Hc Hlen. rewrite getslice_Ok by assumption.
  rewrite slice_shape_covers by assumption.
  rewrite (@slice_body_covers _ ix (shape a) (body a) Hwf Hc). now destruct a.
Qed.

Arguments getslice : simpl never.
Arguments normalize : simpl never.
Arguments window : simpl never.

Section SampleShape.

Context {ndimage_float : NdImage 0%Q} {ndimage_int : NdImage 0%Z}.

Lemma getitem_plain fs self idx w image_file mask_file image mask ci cm ni :
  augment self = false ->
  list_getitem (image_files self) idx = Ok image_file ->
  list_getitem (mask_files self) idx = Ok mask_file ->
  volume fs (os_path_join (image_dir self) image_file) = Some image ->
  volume fs (os_path_join (mask_dir self) mask_file) = Some mask ->
  getslice image window = Ok ci ->
  getslice mask window = Ok cm ->
  normalize ci = Ok ni ->
  getitem fs self idx w =
  (Ok (expand_dims0 ni, expand_dims0 (np_clip0 (astype_int64 cm))),
   emit (Load (os_path_join (mask_dir self) mask_file))
     (emit (Load (os_path_join (image_dir self) image_file)) w)).
Proof.
  intros Haug Hf Hg Hi Hm Hci Hcm Hni.
  unfold getitem, bind, lift, nib_load_get_fdata.
  rewrite Hf, Hg, Hi, Hm, Hci, Hcm, Hni, Haug. reflexivity.
Qed.

Lemma getitem_crop_raises fs self idx w image_file mask_file image mask e :
  list_getitem (image_files self) idx = Ok image_file ->
  list_getitem (mask_files self) idx = Ok mask_file ->
  volume fs (os_path_join (image_dir self) image_file) = Some image ->
  volume fs (os_path_join (mask_dir self) mask_file) = Some mask ->
  getslice image window = Raise e ->
  getitem fs self idx w =
  (Raise e,
   emit (Load (os_path_join (mask_dir self) mask_file))
     (emit (Load (os_path_join (image_dir self) image_file)) w)).
Proof.
  intros Hf Hg Hi Hm Hci.
  unfold getitem, bind, lift, nib_load_get_fdata.
  rewrite Hf, Hg, Hi, Hm, Hci. reflexivity.
Qed.

(** Without augmentation, a volume of four or more axes comes back with one
    more axis in front of its own, cropped on its axes 1, 2 and 3. *)
Lemma getitem_plain_shape fs self idx w image_file mask_file image mask :
  augment self = false ->
  list_getitem (image_files self) idx = Ok image_file ->
  list_getitem (mask_files self) idx = Ok mask_file ->
  volume fs (os_path_join (image_dir self) image_file) = Some image ->
  volume fs (os_path_join (mask_dir self) mask_file) = Some mask ->
  wf image -> positive_dims (shape image) ->
  4 <= ndim image -> 4 <= ndim mask ->
  exists img msk,
    getitem fs self idx w =
    (Ok (img, msk),
     emit (Load (os_path_join (mask_dir self) mask_file))
       (emit (Load (os_path_join (image_dir self) image_file)) w)) /\
    shape img = 1 :: slice_shape window (shape image) /\
    shape msk = 1 :: slice_shape window (shape mask).
Proof.
  intros Haug Hf Hg Hi Hm Hwf Hpos Hni Hnm.
  pose proof (getslice_Ok image window Hni) as Hci.
  pose proof (getslice_Ok mask window Hnm) as Hcm.
  destruct (@normalize_total
              {| shape := slice_shape window (shape image);
                 body := slice_body window (body image) |})
    as [ni [Hnorm [Hshape _]]].
  { apply leaves_nonempty with (slice_shape window (shape image)).
    - now apply has_shape_slice.
    - apply positive_slice_shape; [apply positive_window | assumption]. }
  rewrite (getitem_plain fs self idx w Haug Hf Hg Hi Hm Hci Hcm Hnorm).
  do 2 eexists. split; [reflexivity|]. split.
  - cbn [shape expand_dims0]. now rewrite Hshape.
  - reflexivity.
Qed.

End SampleShape.

Section SampleAxes.

Context {ndimage_float : NdImage 0%Q} {ndimage_int : NdImage 0%Z}.

(** C2 (the code departs from it).  The index expression of line 37 names
    four axes.  A scan stored with its three spatial axes (256,256,128)
    makes [__getitem__] raise [IndexError] once both files are loaded; a
    scan stored as (1,256,256,128) comes back with five axes,
    (1,1,256,256,128), where line 52 announces (1,256,256,128).  In neither
    case is the image a tensor of one channel axis and the spatial shape
    256x256x128. *)
Theorem getitem_sample_axes :
  (forall w,
      getitem (one_scan (np_full [256; 256; 128] 0%Q)
                        (np_full [256; 256; 128] 0%Q))
              (one_scan_dataset false) 0 w =
      (Raise IndexError,
       emit (Load "masks/case_000.nii.gz")
         (emit (Load "images/case_000.nii.gz") w)))
  /\
  (forall w,
      exists image mask,
        getitem (one_scan (np_full [1; 256; 256; 128] 0%Q)
                          (np_full [1; 256; 256; 128] 0%Q))
                (one_scan_dataset false) 0 w =
        (Ok (image, mask),
         emit (Load "masks/case_000.nii.gz")
           (emit (Load "images/case_000.nii.gz") w)) /\
        shape image = [1; 1; 256; 256; 128] /\
        shape mask = [1; 1; 256; 256; 128]).
Proof.
  split; intros w.
  - apply (@getitem_crop_raises _ _
             (one_scan (np_full [256; 256; 128] 0%Q) (np_full [256; 256; 128] 0%Q))
             (one_scan_dataset false) 0%Z w
             "case_000.nii.gz"%string "case_000.nii.gz"%string
             (np_full [256; 256; 128] 0%Q) (np_full [256; 256; 128] 0%Q)
             IndexError); reflexivity.
  - destruct (@getitem_plain_shape _ _
             (one_scan (np_full [1; 256; 256; 128] 0%Q)
                       (np_full [1; 256; 256; 128] 0%Q))
             (one_scan_dataset false) 0%Z w
             "case_000.nii.gz"%string "case_000.nii.gz"%string
             (np_full [1; 256; 256; 128] 0%Q) (np_full [1; 256; 256; 128] 0%Q))
      as [img [msk [Hrun [Hi Hm]]]]; try reflexivity.
    + apply wf_full.
    + repeat constructor.
    + exists img, msk. split; [exact Hrun|]. split; [exact Hi | exact Hm].
Qed.

End SampleAxes.

(** * dataset.py: the flips *)

Lemma advance_1 j w : advance 1 (advance j w) = advance (S j) w.
Proof. reflexivity. Qed.

Lemma flipped_involutive {A} axis (a : ndarray A) :
  flipped axis (flipped axis a) = a.
Proof.
  unfold flipped. cbn [shape body]. rewrite flip_body_involutive.
  now destruct a.
Qed.

Lemma wf_flipped {A} axis (a : ndarray A) : wf a -> wf (flipped axis a).
Proof. apply has_shape_flip. Qed.

Lemma np_flip_Ok {A} (a : ndarray A) axis :
  axis < ndim a -> np_flip a axis = Ok (flipped axis a).
Proof. intros H. unfold np_flip. apply Nat.ltb_lt in H. now rewrite H. Qed.

Section Flips.

Context {ndimage_float : NdImage 0%Q} {ndimage_int : NdImage 0%Z}.

Lemma flip_step_fires axis (p : sample) w :
  above_half (rand w (cursor w)) = true ->
  axis < ndim (fst p) -> axis < ndim (snd p) ->
  flip_step axis p w =
  (Ok (flipped axis (fst p), flipped axis (snd p)), advance 1 w).
Proof.
  intros Hu Hi Hm. unfold flip_step, bind, random_random, lift, ret.
  rewrite Hu, (np_flip_Ok _ Hi), (np_flip_Ok _ Hm). reflexivity.
Qed.

Lemma flip_step_skips axis (p : sample) w :
  above_half (rand w (cursor w)) = false ->
  flip_step axis p w = (Ok p, advance 1 w).
Proof.
  intros Hu. unfold flip_step, bind, random_random, ret. now rewrite Hu.
Qed.

Lemma rotation_step_skips (p : sample) w :
  above_half (rand w (cursor w)) = false ->
  rotation_step p w = (Ok p, advance 1 w).
Proof.
  intros Hu. unfold rotation_step, bind, random_random, ret. now rewrite Hu.
Qed.

Lemma zoom_step_skips (p : sample) w :
  above_half (rand w (cursor w)) = false ->
  zoom_step p w = (Ok p, advance 1 w).
Proof.
  intros Hu. unfold zoom_step, bind, random_random, ret. now rewrite Hu.
Qed.

Lemma recrop_covers (p : sample) w :
  wf (fst p) -> wf (snd p) ->
  covers window (shape (fst p)) -> covers window (shape (snd p)) ->
  4 <= ndim (fst p) -> 4 <= ndim (snd p) ->
  recrop p w = (Ok p, w).
Proof.
  intros Hwi Hwm Hci Hcm Hni Hnm. unfold recrop, bind, lift, ret.
  rewrite (@getslice_covers _ (fst p) window Hwi Hci Hni).
  rewrite (@getslice_covers _ (snd p) window Hwm Hcm Hnm). now destruct p.
Qed.

Lemma apply_augmentation_only_flip axis image mask w :
  In axis [3; 2; 1] ->
  wf image -> wf mask ->
  covers window (shape image) -> covers window (shape mask) ->
  4 <= ndim image -> 4 <= ndim mask ->
  only_flip axis w ->
  apply_augmentation image mask w =
  (Ok (flipped axis image, flipped axis mask), advance 5 w).
Proof.
  intros Hax Hwi Hwm Hci Hcm Hni Hnm Hw.
  pose proof (Hw 0 ltac:(lia)) as H0. pose proof (Hw 1 ltac:(lia)) as H1.
  pose proof (Hw 2 ltac:(lia)) as H2. pose proof (Hw 3 ltac:(lia)) as H3.
  pose proof (Hw 4 ltac:(lia)) as H4.
  assert (recrop (flipped axis image, flipped axis mask) (advance 5 w) =
          (Ok (flipped axis image, flipped axis mask), advance 5 w)) as Hcrop.
  { apply recrop_covers; cbn [fst snd]; auto using wf_flipped. }
  assert (forall k, k < 4 -> k < ndim (fst (image, mask))) as Hi
    by (cbn [fst]; lia).
  assert (forall k, k < 4 -> k < ndim (snd (image, mask))) as Hm
    by (cbn [snd]; lia).
  unfold apply_augmentation.
  destruct Hax as [<-|[<-|[<-|[]]]].
  - rewrite (@bind_Ok _ _ _ _ _ _ _ _ (@flip_step_fires 3 (image, mask) w H0
                            (Hi 3 ltac:(lia)) (Hm 3 ltac:(lia)))).
    rewrite (@bind_Ok _ _ _ _ _ _ _ _ (@flip_step_skips 2 _ (advance 1 w) H1)).
    rewrite (@bind_Ok _ _ _ _ _ _ _ _ (@flip_step_skips 1 _ (advance 2 w) H2)).
    rewrite (@bind_Ok _ _ _ _ _ _ _ _ (@rotation_step_skips _ (advance 3 w) H3)).
    rewrite (@bind_Ok _ _ _ _ _ _ _ _ (@zoom_step_skips _ (advance 4 w) H4)).
    exact Hcrop.
  - rewrite (@bind_Ok _ _ _ _ _ _ _ _ (@flip_step_skips 3 (image, mask) w H0)).
    rewrite (@bind_Ok _ _ _ _ _ _ _ _ (@flip_step_fires 2 (image, mask) (advance 1 w) H1
                            (Hi 2 ltac:(lia)) (Hm 2 ltac:(lia)))).
    rewrite (@bind_Ok _ _ _ _ _ _ _ _ (@flip_step_skips 1 _ (advance 2 w) H2)).
    rewrite (@bind_Ok _ _ _ _ _ _ _ _ (@rotation_step_skips _ (advance 3 w) H3)).
    rewrite (@bind_Ok _ _ _ _ _ _ _ _ (@zoom_step_skips _ (advance 4 w) H4)).
    exact Hcrop.
  - rewrite (@bind_Ok _ _ _ _ _ _ _ _ (@flip_step_skips 3 (image, mask) w H0)).
    rewrite (@bind_Ok _ _ _ _ _ _ _ _ (@flip_step_skips 2 (image, mask) (advance 1 w) H1)).
    rewrite (@bind_Ok _ _ _ _ _ _ _ _ (@flip_step_fires 1 (image, mask) (advance 2 w) H2
                            (Hi 1 ltac:(lia)) (Hm 1 ltac:(lia)))).
    rewrite (@bind_Ok _ _ _ _ _ _ _ _ (@rotation_step_skips _ (advance 3 w) H3)).
    rewrite (@bind_Ok _ _ _ _ _ _ _ _ (@zoom_step_skips _ (advance 4 w) H4)).
    exact Hcrop.
Qed.

End Flips.

Section FlipTwice.

Context {ndimage_float : NdImage 0%Q} {ndimage_int : NdImage 0%Z}.

(** C7.  Flipping twice along one axis gives back the image and the mask.
    For the flip step alone (any axis the arrays have, so each of 3, 2, 1),
    when both decisions are to flip; and for two passes of
    [apply_augmentation] in which only the flip along that axis happens,
    on arrays that the closing re-crop leaves whole. *)
Theorem flip_twice_is_identity :
  (forall axis image mask w,
      axis < ndim image -> axis < ndim mask ->
      above_half (rand w (cursor w)) = true ->
      above_half (rand w (1 + cursor w)) = true ->
      (p <- flip_step axis (image, mask) ;; flip_step axis p) w =
      (Ok (image, mask), advance 2 w))
  /\
  (forall axis image mask w,
      In axis [3; 2; 1] ->
      wf image -> wf mask ->
      covers window (shape image) -> covers window (shape mask) ->
      4 <= ndim image -> 4 <= ndim mask ->
      only_flip axis w -> only_flip axis (advance 5 w) ->
      (p <- apply_augmentation image mask ;;
       apply_augmentation (fst p) (snd p)) w =
      (Ok (image, mask), advance 10 w)).
Proof.
  split.
  - intros axis image mask w Hi Hm H0 H1.
    rewrite (@bind_Ok _ _ _ _ _ _ _ _
               (@flip_step_fires axis (image, mask) w H0 Hi Hm)).
    cbv beta. cbn [fst snd].
    rewrite (@flip_step_fires axis (flipped axis image, flipped axis mask)
               (advance 1 w) H1 Hi Hm).
    cbn [fst snd]. now rewrite !flipped_involutive.
  - intros axis image mask w Hax Hwi Hwm Hci Hcm Hni Hnm Hw Hw'.
    rewrite (@bind_Ok _ _ _ _ _ _ _ _
               (@apply_augmentation_only_flip _ _ axis image mask w
                  Hax Hwi Hwm Hci Hcm Hni Hnm Hw)).
    cbv beta. cbn [fst snd].
    rewrite (@apply_augmentation_only_flip _ _ axis
               (flipped axis image) (flipped axis mask) (advance 5 w)
               Hax (@wf_flipped _ axis image Hwi) (@wf_flipped _ axis mask Hwm)
               Hci Hcm Hni Hnm Hw').
    now rewrite !flipped_involutive.
Qed.

End FlipTwice.

Lemma only_flip_flip_only axis j :
  j mod 5 = 0 -> only_flip axis (advance j (flip_only axis)).
Proof.
  intros Hj k Hk. cbn [rand cursor advance flip_only].
  rewrite Nat.add_0_r.
  assert ((k + j) mod 5 = k) as ->.
  { rewrite Nat.Div0.add_mod, Hj, Nat.add_0_r, Nat.Div0.mod_mod.
    now apply Nat.mod_small. }
  now destruct (k =? 3 - axis).
Qed.

Lemma flip_twice_is_identity_witness :
  (p <- flip_step 3 (ramp, small_labels) ;;
   flip_step 3 p)
    {| rand := fun _ => (3 # 4)%Q; cursor := 0; events := [] |} =
  (Ok (ramp, small_labels),
   advance 2 {| rand := fun _ => (3 # 4)%Q; cursor := 0; events := [] |})
  /\
  (p <- apply_augmentation (ndimage_float := nearest 0%Q)
          (ndimage_int := nearest 0%Z) ramp small_labels ;;
   apply_augmentation (ndimage_float := nearest 0%Q)
     (ndimage_int := nearest 0%Z) (fst p) (snd p)) (flip_only 2) =
  (Ok (ramp, small_labels), advance 10 (flip_only 2)).
Proof.
  split.
  - apply (proj1 (@flip_twice_is_identity (nearest 0%Q) (nearest 0%Z))
             3 ramp small_labels
             {| rand := fun _ => (3 # 4)%Q; cursor := 0; events := [] |});
      try reflexivity; vm_compute; lia.
  - apply (proj2 (@flip_twice_is_identity (nearest 0%Q) (nearest 0%Z))
             2 ramp small_labels (flip_only 2)).
    + simpl. auto.
    + vm_compute. repeat constructor.
    + vm_compute. repeat constructor.
    + vm_compute. repeat split; lia.
    + vm_compute. repeat split; lia.
    + vm_compute. lia.
    + vm_compute. lia.
    + apply (only_flip_flip_only 2 0). reflexivity.
    + apply (only_flip_flip_only 2 5). reflexivity.
Defined.

Example flip_axis_3 :
  option_map values
    (match np_flip ramp 3 with Ok a => Some a | Raise _ => None end) =
  Some [3%Q; 1%Q; 5%Q; 2%Q].
Proof. reflexivity. Qed.

(** * dataset.py: rotation and zoom *)

Section Rotation.

Context {ndimage_float : NdImage 0%Q} {ndimage_int : NdImage 0%Z}.

Lemma rotation_step_fires (p : sample) w :
  above_half (rand w (cursor w)) = true ->
  rotation_step p w =
  rotate_pair default_order 0
    (-30 + (30 - -30) * rand w (1 + cursor w))%Q p (advance 2 w).
Proof.
  intros Hu. unfold rotation_step.
  unfold bind at 1. unfold random_random at 1. rewrite Hu.
  unfold random_uniform. unfold bind at 1. unfold bind at 1.
  unfold random_random, ret. reflexivity.
Qed.

(** C5, as the code has it.  When the rotation happens, image and mask are
    rotated by one and the same angle, [-30 + 60 v] for the next number [v]
    of the generator, hence in [-30, 30]; the mask with order 0, the image
    with the order the library takes when none is passed, 3. *)
Theorem rotation_same_angle_orders_3_and_0 :
  forall (p : sample) w,
    above_half (rand w (cursor w)) = true ->
    (0 <= rand w (1 + cursor w))%Q ->
    (rand w (1 + cursor w) < 1)%Q ->
    exists angle,
      (-30 <= angle <= 30)%Q /\
      (angle == -30 + 60 * rand w (1 + cursor w))%Q /\
      rotation_step p w = rotate_pair 3 0 angle p (advance 2 w).
Proof.
  intros p w Hu Hlo Hhi.
  exists (-30 + (30 - -30) * rand w (1 + cursor w))%Q.
  split; [|split].
  - set (v := rand w (1 + cursor w)) in *.
    assert ((30 - -30) * v == 60 * v)%Q as E by ring.
    rewrite E. split.
    + rewrite <- (Qplus_0_r (-30)) at 1. apply Qplus_le_r.
      apply Qmult_le_0_compat; [discriminate | exact Hlo].
    + apply Qle_trans with (-30 + 60 * 1)%Q; [|discriminate].
      apply Qplus_le_r. apply Qmult_le_l; [reflexivity|].
      now apply Qlt_le_weak.
  - ring.
  - now apply rotation_step_fires.
Qed.

End Rotation.

Lemma rotation_same_angle_orders_3_and_0_witness :
  exists angle,
    (-30 <= angle <= 30)%Q /\
    (angle == -30 + 60 * (1 # 2))%Q /\
    rotation_step (ndimage_float := nearest 0%Q) (ndimage_int := nearest 0%Z)
      (ramp, small_labels) rotate_now =
    rotate_pair (ndimage_float := nearest 0%Q) (ndimage_int := nearest 0%Z)
      3 0 angle (ramp, small_labels) (advance 2 rotate_now).
Proof.
  apply (@rotation_same_angle_orders_3_and_0 (nearest 0%Q) (nearest 0%Z)
           (ramp, small_labels) rotate_now).
  - reflexivity.
  - discriminate.
  - reflexivity.
Defined.

(** C5 as stated fails: the call that rotates the image is not one with
    order 1.  On [ramp] the step leaves a world, the record of the calls
    made, that differs from the one a rotation of the image with order 1
    leaves. *)
Lemma rotation_image_order_1_counterexample :
  ~ (forall (p : sample) w,
        above_half (rand w (cursor w)) = true ->
        rotation_step (ndimage_float := nearest 0%Q) (ndimage_int := nearest 0%Z)
          p w =
        rotate_pair (ndimage_float := nearest 0%Q) (ndimage_int := nearest 0%Z)
          1 0 (-30 + (30 - -30) * rand w (1 + cursor w))%Q p (advance 2 w)).
Proof.
  intros H. specialize (H (ramp, small_labels) rotate_now eq_refl).
  apply (f_equal (fun r => map (fun e => match e with
                                         | Rotate args => r_order args
                                         | _ => 0
                                         end) (events (snd r)))) in H.
  vm_compute in H. discriminate H.
Qed.

Section Zoom.

Context {ndimage_float : NdImage 0%Q} {ndimage_int : NdImage 0%Z}.

Lemma rotate_pair_runs io mo angle (p : sample) w ri rm :
  rotate (fst p) {| r_angle := angle; r_axes := (2, 3); r_reshape := false;
                    r_order := io; r_mode := Nearest |} = Ok ri ->
  rotate (snd p) {| r_angle := angle; r_axes := (2, 3); r_reshape := false;
                    r_order := mo; r_mode := Nearest |} = Ok rm ->
  exists w', rotate_pair io mo angle p w = (Ok (ri, rm), w') /\
             rand w' = rand w /\ cursor w' = cursor w.
Proof.
  intros Hi Hm. unfold rotate_pair, bind, ndimage_rotate, ret.
  rewrite Hi, Hm. eexists. split; [reflexivity|]. split; reflexivity.
Qed.

Lemma zoom_step_fires (p : sample) w zi zm :
  above_half (rand w (cursor w)) = true ->
  zoom (fst p)
    (image_zoom_args ((9 # 10) + ((11 # 10) - (9 # 10)) * rand w (1 + cursor w))%Q)
  = Ok zi ->
  zoom (snd p)
    (mask_zoom_args ((9 # 10) + ((11 # 10) - (9 # 10)) * rand w (1 + cursor w))%Q)
  = Ok zm ->
  exists w', zoom_step p w = (Ok (zi, zm), w').
Proof.
  intros Hu Hi Hm. unfold zoom_step.
  unfold bind at 1. unfold random_random at 1. rewrite Hu.
  unfold random_uniform, bind, random_random, ret, ndimage_zoom.
  cbn [rand cursor]. change (S (cursor w)) with (1 + cursor w).
  rewrite Hi, Hm. eexists. reflexivity.
Qed.

(** A pass in which no flip happens and both the rotation and the zoom do,
    on arrays of four axes: the shape that comes back is the zoomed one,
    cut to the window where it exceeds it. *)
Lemma apply_augmentation_rotate_zoom_shape image mask w s :
  wf image -> wf mask -> shape image = s -> shape mask = s ->
  length s = 4 -> positive_dims s ->
  above_half (rand w (cursor w)) = false ->
  above_half (rand w (1 + cursor w)) = false ->
  above_half (rand w (2 + cursor w)) = false ->
  above_half (rand w (3 + cursor w)) = true ->
  above_half (rand w (5 + cursor w)) = true ->
  forall zoom_factor,
    zoom_factor = ((9 # 10) + ((11 # 10) - (9 # 10)) * rand w (6 + cursor w))%Q ->
    positive_dims (zoom_shape s [1%Q; zoom_factor; zoom_factor; zoom_factor]) ->
    exists img msk w',
      apply_augmentation image mask w = (Ok (img, msk), w') /\
      shape img =
      slice_shape window
        (zoom_shape s [1%Q; zoom_factor; zoom_factor; zoom_factor]) /\
      shape msk =
      slice_shape window
        (zoom_shape s [1%Q; zoom_factor; zoom_factor; zoom_factor]).
Proof.
  intros Hwi Hwm Hsi Hsm Hlen Hpos H0 H1 H2 H3 H5 z Hz Hzpos.
  assert (ndim image = 4) as Hni by (unfold ndim; now rewrite Hsi).
  assert (ndim mask = 4) as Hnm by (unfold ndim; now rewrite Hsm).
  set (angle := (-30 + (30 - -30) * rand w (4 + cursor w))%Q).
  destruct (rotate_keeps_shape image (image_rotate_args angle) Hwi) as [ri [Hri [Hwri Hsri]]];
    try (cbn [r_axes image_rotate_args fst snd]; lia); try reflexivity.
  { now rewrite Hsi. }
  destruct (rotate_keeps_shape mask (mask_rotate_args angle) Hwm) as [rm [Hrm [Hwrm Hsrm]]];
    try (cbn [r_axes mask_rotate_args fst snd]; lia); try reflexivity.
  { now rewrite Hsm. }
  destruct (@rotate_pair_runs default_order 0 angle (image, mask)
              (advance 5 w) ri rm Hri Hrm) as [w5 [Hrot [Hrand Hcur]]].
  rewrite Hsi in Hsri. rewrite Hsm in Hsrm.
  destruct (zoom_gives_shape ri (image_zoom_args z) Hwri) as [zi [Hzi [Hwzi Hszi]]];
    try (rewrite Hsri; assumption).
  { unfold ndim. now rewrite Hsri, Hlen. }
  destruct (zoom_gives_shape rm (mask_zoom_args z) Hwrm) as [zm [Hzm [Hwzm Hszm]]];
    try (rewrite Hsrm; assumption).
  { unfold ndim. now rewrite Hsrm, Hlen. }
  rewrite Hsri in Hszi. rewrite Hsrm in Hszm.
  cbn [z_zoom image_zoom_args] in Hszi. cbn [z_zoom mask_zoom_args] in Hszm.
  destruct (@zoom_step_fires (ri, rm) w5 zi zm) as [w7 Hzoom].
  { rewrite Hrand, Hcur. exact H5. }
  { rewrite Hrand, Hcur. cbn [fst]. rewrite Hz in Hzi. exact Hzi. }
  { rewrite Hrand, Hcur. cbn [snd]. rewrite Hz in Hzm. exact Hzm. }
  assert (length (zoom_shape s [1%Q; z; z; z]) = 4) as Hzlen.
  { rewrite zoom_shape_length; auto. }
  exists {| shape := slice_shape window (shape zi);
            body := slice_body window (body zi) |},
         {| shape := slice_shape window (shape zm);
            body := slice_body window (body zm) |}, w7.
  split; [|split; cbn [shape]; congruence].
  unfold apply_augmentation.
  rewrite (@bind_Ok _ _ _ _ _ _ _ _ (@flip_step_skips 3 (image, mask) w H0)).
  rewrite (@bind_Ok _ _ _ _ _ _ _ _
             (@flip_step_skips 2 (image, mask) (advance 1 w) H1)).
  rewrite (@bind_Ok _ _ _ _ _ _ _ _
             (@flip_step_skips 1 (image, mask) (advance 2 w) H2)).
  assert (rotation_step (image, mask) (advance 3 w) = (Ok (ri, rm), w5)) as Hstep.
  { rewrite (@rotation_step_fires _ _ (image, mask) (advance 3 w) H3).
    exact Hrot. }
  rewrite (@bind_Ok _ _ _ _ _ _ _ _ Hstep).
  rewrite (@bind_Ok _ _ _ _ _ _ _ _ Hzoom).
  unfold recrop, bind, lift, ret. cbn [fst snd].
  rewrite !getslice_Ok; [reflexivity | |]; unfold ndim; cbn [length window].
  - rewrite Hszm, Hzlen. unfold window. cbn [length]. lia.
  - rewrite Hszi, Hzlen. unfold window. cbn [length]. lia.
Qed.

End Zoom.

Section ZoomOut.

Context {ndimage_float : NdImage 0%Q} {ndimage_int : NdImage 0%Z}.

(** The zoom step gives the library four factors: on an array that has not
    four axes the call raises; such are the arrays [__getitem__] passes,
    one axis more than the four the crop of line 37 asks of the file. *)
Lemma zoom_step_needs_four_axes (p : sample) w :
  above_half (rand w (cursor w)) = true ->
  ndim (fst p) <> 4 ->
  exists w', zoom_step p w = (Raise RuntimeError, w').
Proof.
  intros Hu Hn. unfold zoom_step.
  unfold bind at 1. unfold random_random at 1. rewrite Hu.
  unfold random_uniform, bind, random_random, ret, ndimage_zoom.
  rewrite zoom_rank; [eexists; reflexivity|].
  cbn [z_zoom image_zoom_args length]. congruence.
Qed.

(** C6 (the code departs from it).  On an image and a mask of shape
    (1,256,256,128), with the rotation by an angle in range and the zoom by
    the factor 0.9, [apply_augmentation] returns arrays of shape
    (1,230,230,115): the zoom makes them smaller than the window and the
    crop of lines 93-94, 'Crop back to original size', cannot make them
    larger. *)
Theorem zoom_out_leaves_smaller_arrays :
  exists image mask w',
    apply_augmentation (np_full [1; 256; 256; 128] 0%Q)
      (np_full [1; 256; 256; 128] 0%Z) zoom_out = (Ok (image, mask), w') /\
    shape image = [1; 230; 230; 115] /\
    shape mask = [1; 230; 230; 115].
Proof.
  destruct (@apply_augmentation_rotate_zoom_shape _ _
              (np_full [1; 256; 256; 128] 0%Q)
              (np_full [1; 256; 256; 128] 0%Z) zoom_out [1; 256; 256; 128]
              (wf_full _ _) (wf_full _ _) eq_refl eq_refl eq_refl)
    with (zoom_factor := ((9 # 10) + ((11 # 10) - (9 # 10)) * 0)%Q)
    as [img [msk [w' [Hrun [Hi Hm]]]]]; try reflexivity.
  - repeat (constructor; try lia).
  - vm_compute. repeat (constructor; try lia).
  - exists img, msk, w'. split; [exact Hrun|]. split.
    + rewrite Hi. vm_compute. reflexivity.
    + rewrite Hm. vm_compute. reflexivity.
Qed.

End ZoomOut.

Example zoom_shapes :
  zoom_shape [1; 256; 256; 128] [1; 9 # 10; 9 # 10; 9 # 10]%Q = [1; 230; 230; 115] /\
  zoom_shape [1; 256; 256; 128] [1; 1; 1; 1]%Q = [1; 256; 256; 128] /\
  zoom_shape [1; 256; 256; 128] [1; 11 # 10; 11 # 10; 11 # 10]%Q = [1; 282; 282; 141].
Proof. repeat split; vm_compute; reflexivity. Qed.

(** * Further properties of modules.py and dataset.py *)

(** * modules.py: the blocks of the network *)

Unset Implicit Arguments.

Lemma window_out_3 e stride :
  1 <= e -> window_out e 3 stride 1 = Ok (strided stride e).
Proof.
  intros He. unfold window_out, strided.
  destruct (Nat.ltb_spec (e + 2 * 1) 3); [lia|].
  do 2 f_equal. f_equal. lia.
Qed.

Lemma window_out_1 e stride :
  1 <= e -> window_out e 1 stride 0 = Ok (strided stride e).
Proof.
  intros He. unfold window_out, strided.
  destruct (Nat.ltb_spec (e + 2 * 0) 1); [lia|].
  do 2 f_equal. f_equal. lia.
Qed.

Lemma window_out_pool e : 2 <= e -> window_out e 2 2 0 = Ok (e / 2).
Proof.
  intros He. unfold window_out.
  destruct (Nat.ltb_spec (e + 2 * 0) 2); [lia|]. f_equal.
  replace (e + 2 * 0 - 2) with (e - 2) by lia.
  replace e with ((e - 2) + 1 * 2) at 2 by lia.
  rewrite Nat.div_add by lia. reflexivity.
Qed.

Lemma window_out_pool_small e : e < 2 -> window_out e 2 2 0 = Raise RuntimeError.
Proof.
  intros He. unfold window_out.
  destruct (Nat.ltb_spec (e + 2 * 0) 2); [reflexivity | lia].
Qed.

Lemma transpose_out_2 e : 1 <= e -> transpose_out e 2 2 = Ok (2 * e).
Proof.
  intros He. unfold transpose_out.
  destruct (Nat.eqb_spec e 0); [lia|]. f_equal. lia.
Qed.

Lemma strided_1 e : 1 <= e -> strided 1 e = e.
Proof. intros He. unfold strided. rewrite Nat.div_1_r. lia. Qed.

Lemma strided_positive stride e : 1 <= strided stride e.
Proof. unfold strided. lia. Qed.

Lemma spatial3_Ok_intro f d h w d' h' w' :
  f d = Ok d' -> f h = Ok h' -> f w = Ok w' ->
  spatial3 f d h w = Ok [d'; h'; w'].
Proof. intros Hd Hh Hw. unfold spatial3. now rewrite Hd, Hh, Hw. Qed.

Lemma Conv3d_size cin cout k stride padding n d h w d' h' w' :
  window_out d k stride padding = Ok d' ->
  window_out h k stride padding = Ok h' ->
  window_out w k stride padding = Ok w' ->
  call (Conv3d cin cout k stride padding) [n; cin; d; h; w] =
  Ok [n; cout; d'; h'; w'].
Proof.
  intros Hd Hh Hw. cbn [call]. rewrite Nat.eqb_refl.
  now rewrite (spatial3_Ok_intro _ d h w d' h' w' Hd Hh Hw).
Qed.

Lemma Conv3d_channels cin cout k stride padding n c d h w :
  c <> cin ->
  call (Conv3d cin cout k stride padding) [n; c; d; h; w] = Raise RuntimeError.
Proof. intros Hc. cbn [call]. apply Nat.eqb_neq in Hc. now rewrite Hc. Qed.

Lemma BatchNorm3d_size c n d h w :
  n * d * h * w <> 1 ->
  call (BatchNorm3d c) [n; c; d; h; w] = Ok [n; c; d; h; w].
Proof.
  intros H. cbn [call]. rewrite Nat.eqb_refl. cbn [negb].
  apply Nat.eqb_neq in H. now rewrite H.
Qed.

Lemma BatchNorm3d_single c n d h w :
  n * d * h * w = 1 ->
  call (BatchNorm3d c) [n; c; d; h; w] = Raise ValueError.
Proof.
  intros H. cbn [call]. rewrite Nat.eqb_refl. cbn [negb].
  apply Nat.eqb_eq in H. now rewrite H.
Qed.

Lemma broadcast_rev_refl l : broadcast_rev l l = true.
Proof.
  induction l as [|x l IH]; simpl; auto. now rewrite Nat.eqb_refl, IH.
Qed.

Lemma iadd_same out : iadd out out = Ok out.
Proof. unfold iadd. now rewrite broadcast_rev_refl. Qed.

Lemma call_ReLU x : call ReLU x = Ok x.
Proof. reflexivity. Qed.

Lemma ResNetBlock_runs cin cout stride n d h w :
  1 <= d -> 1 <= h -> 1 <= w ->
  n * strided stride d * strided stride h * strided stride w <> 1 ->
  call (ResNetBlock cin cout stride) [n; cin; d; h; w] =
  Ok [n; cout; strided stride d; strided stride h; strided stride w].
Proof.
  intros Hd Hh Hw Hbn.
  pose proof (strided_positive stride d) as Pd.
  pose proof (strided_positive stride h) as Ph.
  pose proof (strided_positive stride w) as Pw.
  unfold ResNetBlock.
  change (call (ResNetBlockModule ?c1 ?b1 ?r ?c2 ?b2 ?sc) ?x) with
    (try out <- call c1 x ;;
     try out <- call b1 out ;;
     try out <- call r out ;;
     try out <- call c2 out ;;
     try out <- call b2 out ;;
     try s <- call sc x ;;
     try out <- iadd out s ;;
     call r out).
  rewrite (Conv3d_size cin cout 3 stride 1 n d h w _ _ _
             (window_out_3 d stride Hd) (window_out_3 h stride Hh)
             (window_out_3 w stride Hw)).
  cbn [rbind]. rewrite (BatchNorm3d_size cout _ _ _ _ Hbn). cbn [rbind].
  rewrite call_ReLU. cbn [rbind].
  rewrite (Conv3d_size cout cout 3 1 1 n _ _ _ _ _ _
             (window_out_3 _ 1 Pd) (window_out_3 _ 1 Ph) (window_out_3 _ 1 Pw)).
  rewrite !strided_1 by assumption.
  cbn [rbind]. rewrite (BatchNorm3d_size cout _ _ _ _ Hbn). cbn [rbind].
  assert (call (if negb (stride =? 1) || negb (cin =? cout)
                then Conv3d cin cout 1 stride 0 else Sequential [])
               [n; cin; d; h; w] =
          Ok [n; cout; strided stride d; strided stride h; strided stride w])
    as ->.
  { destruct (Nat.eqb_spec stride 1) as [->|]; cbn [negb orb].
    - destruct (Nat.eqb_spec cin cout) as [->|]; cbn [negb].
      + cbn [call]. now rewrite !strided_1.
      + apply Conv3d_size; now apply window_out_1.
    - apply Conv3d_size; now apply window_out_1. }
  cbn [rbind]. rewrite iadd_same. cbn [rbind]. apply call_ReLU.
Qed.

Lemma call_Sequential_cons m ms x :
  call (Sequential (m :: ms)) x = try z <- call m x ;; call (Sequential ms) z.
Proof. reflexivity. Qed.

Lemma call_Sequential_nil x : call (Sequential []) x = Ok x.
Proof. reflexivity. Qed.

Lemma product_not_1 n d h w : 2 <= d -> n * d * h * w <> 1.
Proof.
  intros Hd H. apply Nat.eq_mul_1 in H. destruct H as [H _].
  apply Nat.eq_mul_1 in H. destruct H as [H _].
  apply Nat.eq_mul_1 in H. lia.
Qed.

Lemma DoubleConv_runs cin cout n d h w :
  1 <= d -> 1 <= h -> 1 <= w -> n * d * h * w <> 1 ->
  call (DoubleConv cin cout) [n; cin; d; h; w] = Ok [n; cout; d; h; w].
Proof.
  intros Hd Hh Hw Hbn. unfold DoubleConv.
  change (call (DoubleConvModule ?m) ?x) with (call m x).
  assert (forall c, call (Conv3d c cout 3 1 1) [n; c; d; h; w] =
                    Ok [n; cout; d; h; w]) as Hconv.
  { intros c.
    rewrite (Conv3d_size c cout 3 1 1 n d h w _ _ _
               (window_out_3 d 1 Hd) (window_out_3 h 1 Hh) (window_out_3 w 1 Hw)).
    now rewrite !strided_1. }
  rewrite call_Sequential_cons, Hconv. cbn [rbind].
  rewrite call_Sequential_cons, (BatchNorm3d_size cout n d h w Hbn). cbn [rbind].
  rewrite call_Sequential_cons, call_ReLU. cbn [rbind].
  rewrite call_Sequential_cons, Hconv. cbn [rbind].
  rewrite call_Sequential_cons, (BatchNorm3d_size cout n d h w Hbn). cbn [rbind].
  rewrite call_Sequential_cons, call_ReLU. cbn [rbind].
  apply call_Sequential_nil.
Qed.

Lemma MaxPool3d_halves n c d h w :
  2 <= d -> 2 <= h -> 2 <= w ->
  call (MaxPool3d 2 2) [n; c; d; h; w] = Ok [n; c; d / 2; h / 2; w / 2].
Proof.
  intros Hd Hh Hw. cbn [call].
  now rewrite (spatial3_Ok_intro _ d h w _ _ _ (window_out_pool d Hd)
                 (window_out_pool h Hh) (window_out_pool w Hw)).
Qed.

Lemma contracting_block_runs cin cout n d h w :
  2 <= d -> 2 <= h -> 2 <= w ->
  call (contracting_block cin cout) [n; cin; d; h; w] =
  Ok [n; cout; d / 2; h / 2; w / 2].
Proof.
  intros Hd Hh Hw. unfold contracting_block.
  rewrite call_Sequential_cons.
  rewrite (ResNetBlock_runs cin cout 1 n d h w) by
    (try lia; rewrite !strided_1 by lia; now apply product_not_1).
  rewrite !strided_1 by lia. cbn [rbind].
  rewrite call_Sequential_cons, (MaxPool3d_halves n cout d h w Hd Hh Hw).
  cbn [rbind]. apply call_Sequential_nil.
Qed.

Lemma ConvTranspose3d_doubles cin cout n d h w :
  1 <= d -> 1 <= h -> 1 <= w ->
  call (ConvTranspose3d cin cout 2 2) [n; cin; d; h; w] =
  Ok [n; cout; 2 * d; 2 * h; 2 * w].
Proof.
  intros Hd Hh Hw. cbn [call]. rewrite Nat.eqb_refl.
  now rewrite (spatial3_Ok_intro _ d h w _ _ _ (transpose_out_2 d Hd)
                 (transpose_out_2 h Hh) (transpose_out_2 w Hw)).
Qed.

Lemma expanding_block_runs cin cout n d h w :
  1 <= d -> 1 <= h -> 1 <= w ->
  call (expanding_block cin cout) [n; cin; d; h; w] =
  Ok [n; cout; 2 * d; 2 * h; 2 * w].
Proof.
  intros Hd Hh Hw. unfold expanding_block.
  rewrite call_Sequential_cons.
  rewrite (ConvTranspose3d_doubles cin cout n d h w Hd Hh Hw). cbn [rbind].
  rewrite call_Sequential_cons.
  rewrite (DoubleConv_runs cout cout n (2 * d) (2 * h) (2 * w))
    by (try lia; apply product_not_1; lia).
  cbn [rbind]. apply call_Sequential_nil.
Qed.

Lemma ResNetBlock_unfold cin cout stride x :
  call (ResNetBlock cin cout stride) x =
  (try out <- call (Conv3d cin cout 3 stride 1) x ;;
   try out <- call (BatchNorm3d cout) out ;;
   try out <- call ReLU out ;;
   try out <- call (Conv3d cout cout 3 1 1) out ;;
   try out <- call (BatchNorm3d cout) out ;;
   try s <- call (if negb (stride =? 1) || negb (cin =? cout)
                  then Conv3d cin cout 1 stride 0 else Sequential []) x ;;
   try out <- iadd out s ;;
   call ReLU out).
Proof. reflexivity. Qed.

Lemma ResNetBlock_single cin cout stride n d h w :
  1 <= d -> 1 <= h -> 1 <= w ->
  n * strided stride d * strided stride h * strided stride w = 1 ->
  call (ResNetBlock cin cout stride) [n; cin; d; h; w] = Raise ValueError.
Proof.
  intros Hd Hh Hw Hbn. rewrite ResNetBlock_unfold.
  rewrite (Conv3d_size cin cout 3 stride 1 n d h w _ _ _
             (window_out_3 d stride Hd) (window_out_3 h stride Hh)
             (window_out_3 w stride Hw)).
  cbn [rbind]. now rewrite (BatchNorm3d_single cout _ _ _ _ Hbn).
Qed.

Lemma ResNetBlock_wrong_channels cin cout stride n c d h w :
  c <> cin ->
  call (ResNetBlock cin cout stride) [n; c; d; h; w] = Raise RuntimeError.
Proof.
  intros Hc. rewrite ResNetBlock_unfold.
  now rewrite (Conv3d_channels cin cout 3 stride 1 n c d h w Hc).
Qed.

(** X1.  A residual block maps a batch of [cin]-channel volumes to
    [cout] channels and to the extents [(e - 1) / stride + 1]; its shortcut
    always has the size of the main path, so the addition never fails.  It
    raises [ValueError] when the result would hold a single value per
    channel (batch normalisation in training mode) and [RuntimeError] on
    another number of input channels. *)
Theorem ResNetBlock_size :
  forall cin cout stride n d h w,
    1 <= stride -> 1 <= d -> 1 <= h -> 1 <= w ->
    (n * strided stride d * strided stride h * strided stride w <> 1 ->
     call (ResNetBlock cin cout stride) [n; cin; d; h; w] =
     Ok [n; cout; strided stride d; strided stride h; strided stride w]) /\
    (n * strided stride d * strided stride h * strided stride w = 1 ->
     call (ResNetBlock cin cout stride) [n; cin; d; h; w] = Raise ValueError) /\
    (forall c, c <> cin ->
     call (ResNetBlock cin cout stride) [n; c; d; h; w] = Raise RuntimeError).
Proof.
  intros cin cout stride n d h w _ Hd Hh Hw. split; [|split].
  - now apply ResNetBlock_runs.
  - now apply ResNetBlock_single.
  - intros c. apply ResNetBlock_wrong_channels.
Qed.

Lemma ResNetBlock_size_witness :
  call (ResNetBlock 3 8 2) [2; 3; 5; 6; 7] = Ok [2; 8; 3; 3; 4] /\
  call (ResNetBlock 8 8 1) [1; 8; 1; 1; 1] = Raise ValueError /\
  call (ResNetBlock 3 8 2) [2; 4; 5; 6; 7] = Raise RuntimeError.
Proof.
  split; [|split].
  - apply (proj1 (ResNetBlock_size 3 8 2 2 5 6 7
                    ltac:(lia) ltac:(lia) ltac:(lia) ltac:(lia))).
    vm_compute. lia.
  - apply (proj1 (proj2 (ResNetBlock_size 8 8 1 1 1 1 1
                           ltac:(lia) ltac:(lia) ltac:(lia) ltac:(lia)))).
    reflexivity.
  - apply (proj2 (proj2 (ResNetBlock_size 3 8 2 2 5 6 7
                           ltac:(lia) ltac:(lia) ltac:(lia) ltac:(lia)))).
    lia.
Defined.

(** X2.  A double convolution keeps the batch and the three extents and
    sets the channels to [cout]; it raises [RuntimeError] on another number
    of input channels. *)
Theorem DoubleConv_size :
  forall cin cout n d h w,
    1 <= d -> 1 <= h -> 1 <= w ->
    (n * d * h * w <> 1 ->
     call (DoubleConv cin cout) [n; cin; d; h; w] = Ok [n; cout; d; h; w]) /\
    (forall c, c <> cin ->
     call (DoubleConv cin cout) [n; c; d; h; w] = Raise RuntimeError).
Proof.
  intros cin cout n d h w Hd Hh Hw. split.
  - now apply DoubleConv_runs.
  - intros c Hc. unfold DoubleConv.
    change (call (DoubleConvModule ?m) ?x) with (call m x).
    rewrite call_Sequential_cons.
    now rewrite (Conv3d_channels cin cout 3 1 1 n c d h w Hc).
Qed.

Lemma DoubleConv_size_witness :
  call (DoubleConv 4 4) [1; 4; 2; 3; 5] = Ok [1; 4; 2; 3; 5] /\
  call (DoubleConv 4 4) [1; 6; 2; 3; 5] = Raise RuntimeError.
Proof.
  split.
  - apply (proj1 (DoubleConv_size 4 4 1 2 3 5 ltac:(lia) ltac:(lia) ltac:(lia))).
    vm_compute. lia.
  - apply (proj2 (DoubleConv_size 4 4 1 2 3 5 ltac:(lia) ltac:(lia) ltac:(lia))).
    lia.
Defined.

Lemma spatial3_pool_small d h w :
  d < 2 \/ h < 2 \/ w < 2 ->
  spatial3 (fun e => window_out e 2 2 0) d h w = Raise RuntimeError.
Proof.
  intros H. unfold spatial3.
  destruct (Nat.lt_ge_cases d 2) as [Hd|Hd].
  { now rewrite (window_out_pool_small d Hd). }
  rewrite (window_out_pool d Hd). cbn [rbind].
  destruct (Nat.lt_ge_cases h 2) as [Hh|Hh].
  { now rewrite (window_out_pool_small h Hh). }
  rewrite (window_out_pool h Hh). cbn [rbind].
  destruct (Nat.lt_ge_cases w 2) as [Hw|Hw]; [|lia].
  now rewrite (window_out_pool_small w Hw).
Qed.

(** X3.  A contracting block sets the channels to [cout] and halves each
    extent, rounding down.  An extent of 1 cannot be halved: the block
    raises, [ValueError] in the residual block for a single 1x1x1 volume
    and [RuntimeError] in the pooling otherwise. *)
Theorem contracting_block_halves :
  forall cin cout n d h w,
    (2 <= d -> 2 <= h -> 2 <= w ->
     call (contracting_block cin cout) [n; cin; d; h; w] =
     Ok [n; cout; d / 2; h / 2; w / 2]) /\
    (1 <= d -> 1 <= h -> 1 <= w -> d < 2 \/ h < 2 \/ w < 2 ->
     call (contracting_block cin cout) [n; cin; d; h; w] =
     Raise (if n * d * h * w =? 1 then ValueError else RuntimeError)).
Proof.
  intros cin cout n d h w. split.
  - apply contracting_block_runs.
  - intros Hd Hh Hw Hsmall. unfold contracting_block.
    rewrite call_Sequential_cons.
    destruct (Nat.eqb_spec (n * d * h * w) 1) as [E|E].
    + rewrite (ResNetBlock_single cin cout 1 n d h w) by
        (try assumption; now rewrite !strided_1).
      reflexivity.
    + rewrite (ResNetBlock_runs cin cout 1 n d h w) by
        (try assumption; now rewrite !strided_1).
      rewrite !strided_1 by assumption. cbn [rbind].
      rewrite call_Sequential_cons. cbn [call].
      now rewrite (spatial3_pool_small d h w Hsmall).
Qed.

Lemma contracting_block_halves_witness :
  call (contracting_block 1 64) [1; 1; 5; 4; 2] = Ok [1; 64; 5 / 2; 4 / 2; 2 / 2] /\
  call (contracting_block 1 64) [2; 1; 4; 1; 4] =
  Raise (if 2 * 4 * 1 * 4 =? 1 then ValueError else RuntimeError).
Proof.
  split.
  - apply (proj1 (contracting_block_halves 1 64 1 5 4 2)); lia.
  - apply (proj2 (contracting_block_halves 1 64 2 4 1 4)); lia.
Defined.

(** X4.  An expanding block sets the channels to [cout] and doubles each
    extent; it raises [RuntimeError] on a tensor that has not the [cin]
    channels its transposed convolution was built for. *)
Theorem expanding_block_doubles :
  forall cin cout n d h w,
    (1 <= d -> 1 <= h -> 1 <= w ->
     call (expanding_block cin cout) [n; cin; d; h; w] =
     Ok [n; cout; 2 * d; 2 * h; 2 * w]) /\
    (forall c, c <> cin ->
     call (expanding_block cin cout) [n; c; d; h; w] = Raise RuntimeError).
Proof.
  intros cin cout n d h w. split.
  - apply expanding_block_runs.
  - intros c Hc. unfold expanding_block. rewrite call_Sequential_cons.
    cbn [call]. apply Nat.eqb_neq in Hc. now rewrite Hc.
Qed.

Lemma expanding_block_doubles_witness :
  call (expanding_block 6 2) [1; 6; 1; 2; 3] = Ok [1; 2; 2 * 1; 2 * 2; 2 * 3] /\
  call (expanding_block 6 2) [1; 4; 1; 2; 3] = Raise RuntimeError.
Proof.
  split.
  - apply (proj1 (expanding_block_doubles 6 2 1 1 2 3)); lia.
  - apply (proj2 (expanding_block_doubles 6 2 1 1 2 3)). lia.
Defined.

(** X5.  [forward] returns on no input, whatever the channel counts the
    network was built with: it raises before line 99 or, there, because the
    windowed bottleneck has 1024 channels and [dec4] takes 1024 + 512. *)
Theorem forward_raises_on_every_input :
  forall in_channels out_channels x out,
    exists e out',
      forward (UNet3D_init in_channels out_channels) x out = (Raise e, out').
Proof. exact forward_never_returns. Qed.

Lemma halve_even k a : 2 * k * a / 2 = k * a.
Proof.
  replace (2 * k * a) with (k * a * 2) by lia. apply Nat.div_mul. lia.
Qed.

Lemma contracting_block_even cin cout n k a b c :
  1 <= k -> 1 <= a -> 1 <= b -> 1 <= c ->
  call (contracting_block cin cout) [n; cin; 2 * k * a; 2 * k * b; 2 * k * c] =
  Ok [n; cout; k * a; k * b; k * c].
Proof.
  intros Hk Ha Hb Hc.
  rewrite contracting_block_runs by nia. now rewrite !halve_even.
Qed.

(** X6.  On a batch whose three extents are multiples of 16, [forward]
    goes through the four contracting stages, the bottleneck and the first
    call of [dec4], printing the seven sizes below, and then raises
    [RuntimeError] at the second call of [dec4]. *)
Theorem forward_sizes_on_multiples_of_16 :
  forall cin cout n a b c out,
    1 <= a -> 1 <= b -> 1 <= c -> n * a * b * c <> 1 ->
    forward (UNet3D_init cin cout) [n; cin; 16 * a; 16 * b; 16 * c] out =
    (Raise RuntimeError,
     out ++
     [("enc1 shape:"%string, [n; 64; 8 * a; 8 * b; 8 * c]);
      ("enc2 shape:"%string, [n; 128; 4 * a; 4 * b; 4 * c]);
      ("enc3 shape:"%string, [n; 256; 2 * a; 2 * b; 2 * c]);
      ("enc4 shape:"%string, [n; 512; a; b; c]);
      ("bottleneck shape:"%string, [n; 1024; a; b; c]);
      ("combined_input_dec4 shape:"%string, [n; 1024 + 512; a; b; c]);
      ("dec4 shape:"%string, [n; 512; 2 * a; 2 * b; 2 * c])]).
Proof.
  intros cin cout n a b c out Ha Hb Hc Hbn.
  pose proof (contracting_block_even cin 64 n 8 a b c
                ltac:(lia) Ha Hb Hc) as H1.
  pose proof (contracting_block_even 64 128 n 4 a b c
                ltac:(lia) Ha Hb Hc) as H2.
  pose proof (contracting_block_even 128 256 n 2 a b c
                ltac:(lia) Ha Hb Hc) as H3.
  pose proof (contracting_block_even 256 512 n 1 a b c
                ltac:(lia) Ha Hb Hc) as H4.
  change (2 * 8 * a) with (16 * a) in H1. change (2 * 8 * b) with (16 * b) in H1.
  change (2 * 8 * c) with (16 * c) in H1.
  change (2 * 4 * a) with (8 * a) in H2. change (2 * 4 * b) with (8 * b) in H2.
  change (2 * 4 * c) with (8 * c) in H2.
  change (2 * 2 * a) with (4 * a) in H3. change (2 * 2 * b) with (4 * b) in H3.
  change (2 * 2 * c) with (4 * c) in H3.
  change (2 * 1 * a) with (2 * a) in H4. change (2 * 1 * b) with (2 * b) in H4.
  change (2 * 1 * c) with (2 * c) in H4.
  rewrite !Nat.mul_1_l in H4.
  assert (call (ResNetBlock 512 1024 1) [n; 512; a; b; c] =
          Ok [n; 1024; a; b; c]) as H5.
  { rewrite (ResNetBlock_runs 512 1024 1 n a b c) by
      (try assumption; now rewrite !strided_1).
    now rewrite !strided_1. }
  assert (center_crop_size [n; 1024; a; b; c] [n; 512; a; b; c] =
          Ok [n; 1024; a; b; c]) as H6.
  { unfold center_crop_size. cbn [length Nat.leb slice_shape take_len].
    now rewrite !Nat.min_id. }
  assert (cat1 [n; 1024; a; b; c] [n; 512; a; b; c] =
          Ok [n; 1024 + 512; a; b; c]) as H7.
  { unfold cat1. cbn [size_eqb]. now rewrite !Nat.eqb_refl. }
  pose proof (expanding_block_runs (1024 + 512) 512 n a b c Ha Hb Hc) as H8.
  assert (call (expanding_block (1024 + 512) 512) [n; 1024; a; b; c] =
          Raise RuntimeError) as H9.
  { apply expanding_block_channels. lia. }
  unfold forward. cbn [enc1 enc2 enc3 enc4 bottleneck dec4 UNet3D_init].
  unfold bind, lift, print.
  rewrite H1. cbv beta iota. rewrite H2. cbv beta iota.
  rewrite H3. cbv beta iota. rewrite H4. cbv beta iota.
  rewrite H5. cbv beta iota. rewrite H6. cbv beta iota.
  rewrite H7. cbv beta iota. rewrite H8. cbv beta iota.
  rewrite H9. rewrite <- !app_assoc. reflexivity.
Qed.

Lemma forward_sizes_on_multiples_of_16_witness :
  forward (UNet3D_init 1 4) [1; 1; 16 * 2; 16 * 1; 16 * 1] [] =
  (Raise RuntimeError,
   [] ++
   [("enc1 shape:"%string, [1; 64; 8 * 2; 8 * 1; 8 * 1]);
    ("enc2 shape:"%string, [1; 128; 4 * 2; 4 * 1; 4 * 1]);
    ("enc3 shape:"%string, [1; 256; 2 * 2; 2 * 1; 2 * 1]);
    ("enc4 shape:"%string, [1; 512; 2; 1; 1]);
    ("bottleneck shape:"%string, [1; 1024; 2; 1; 1]);
    ("combined_input_dec4 shape:"%string, [1; 1024 + 512; 2; 1; 1]);
    ("dec4 shape:"%string, [1; 512; 2 * 2; 2 * 1; 2 * 1])]).
Proof.
  apply (forward_sizes_on_multiples_of_16 1 4 1 2 1 1 []); lia.
Defined.

(** * modules.py: more on [center_crop] *)

Lemma center_crop_runs {A} (tensor target_tensor : ndarray A) n' c' d h w :
  shape target_tensor = [n'; c'; d; h; w] -> 5 <= ndim tensor ->
  center_crop tensor target_tensor =
  Ok {| shape := slice_shape [None; None; Some d; Some h; Some w] (shape tensor);
        body := slice_body [None; None; Some d; Some h; Some w] (body tensor) |}.
Proof.
  intros Ht Hn. unfold center_crop. rewrite Ht. now apply getslice_Ok.
Qed.

(** X7.  [center_crop] only cuts: a tensor whose three spatial extents do
    not exceed the target's comes back as it is, and cropping the result
    once more against the same target changes nothing. *)
Theorem center_crop_fits_and_idempotent :
  forall A (tensor target_tensor : ndarray A) n c D H W n' c' d h w,
    wf tensor ->
    shape tensor = [n; c; D; H; W] ->
    shape target_tensor = [n'; c'; d; h; w] ->
    (D <= d -> H <= h -> W <= w ->
     center_crop tensor target_tensor = Ok tensor) /\
    (exists r, center_crop tensor target_tensor = Ok r /\
               center_crop r target_tensor = Ok r).
Proof.
  intros A tensor target n c D H W n' c' d h w Hwf Hs Ht.
  assert (forall t : ndarray A,
             wf t -> forall D H W, shape t = [n; c; D; H; W] ->
             D <= d -> H <= h -> W <= w -> center_crop t target = Ok t) as fits.
  { intros t Hwt D0 H0 W0 Hst HD HH HW. unfold center_crop. rewrite Ht.
    apply getslice_covers; auto.
    - rewrite Hst. cbn [covers]. tauto.
    - unfold ndim. rewrite Hst. cbn [length]. lia. }
  split.
  - intros HD HH HW. now apply (fits tensor Hwf D H W).
  - rewrite (center_crop_runs tensor target n' c' d h w Ht)
      by (unfold ndim; rewrite Hs; cbn [length]; lia).
    eexists. split; [reflexivity|].
    apply (fits _) with (D := Nat.min d D) (H := Nat.min h H) (W := Nat.min w W).
    + unfold wf. cbn [shape body]. now apply has_shape_slice.
    + cbn [shape]. rewrite Hs. reflexivity.
    + apply Nat.le_min_l.
    + apply Nat.le_min_l.
    + apply Nat.le_min_l.
Qed.

Lemma center_crop_fits_and_idempotent_witness :
  center_crop cube (np_full [1; 1; 2; 3; 2] 0) = Ok cube /\
  exists r, center_crop cube (np_full [1; 1; 1; 2; 1] 0) = Ok r /\
            center_crop r (np_full [1; 1; 1; 2; 1] 0) = Ok r.
Proof.
  split.
  - apply (proj1 (center_crop_fits_and_idempotent nat cube
                    (np_full [1; 1; 2; 3; 2] 0) 1 1 2 2 2 1 1 2 3 2
                    ltac:(vm_compute; repeat constructor) eq_refl eq_refl));
      lia.
  - apply (proj2 (center_crop_fits_and_idempotent nat cube
                    (np_full [1; 1; 1; 2; 1] 0) 1 1 2 2 2 1 1 1 2 1
                    ltac:(vm_compute; repeat constructor) eq_refl eq_refl)).
Defined.

(** X8.  [center_crop] needs five axes on both sides: a target whose size
    has not exactly five entries makes the unpacking of line 116 raise
    [ValueError], and with such a target a tensor of fewer than five axes
    makes the indexing of line 117 raise [IndexError]. *)
Theorem center_crop_needs_five_axes :
  forall A (tensor target_tensor : ndarray A),
    (ndim target_tensor <> 5 ->
     center_crop tensor target_tensor = Raise ValueError) /\
    (ndim target_tensor = 5 -> ndim tensor < 5 ->
     center_crop tensor target_tensor = Raise IndexError).
Proof.
  intros A tensor target. unfold center_crop, ndim. split.
  - intros H.
    destruct (shape target) as [|? [|? [|? [|? [|? [|? ?]]]]]];
      try reflexivity. now contradiction H.
  - intros H Hn.
    destruct (shape target) as [|? [|? [|? [|? [|? [|? ?]]]]]];
      try discriminate H.
    now apply getslice_Raise.
Qed.

Lemma center_crop_needs_five_axes_witness :
  center_crop cube (np_full [2; 2; 2] 0) = Raise ValueError /\
  center_crop (np_full [4; 4; 4; 4] 0) cube = Raise IndexError.
Proof.
  split.
  - apply (proj1 (center_crop_needs_five_axes nat cube (np_full [2; 2; 2] 0))).
    vm_compute. lia.
  - apply (proj2 (center_crop_needs_five_axes nat (np_full [4; 4; 4; 4] 0) cube)).
    + reflexivity.
    + vm_compute. lia.
Defined.

(** * dataset.py: what [__init__] lists *)








(** * dataset.py: indices and files *)

Lemma list_getitem_negative {A} (l : list A) (idx : Z) :
  (- Z.of_nat (length l) <= idx < 0)%Z ->
  list_getitem l idx = list_getitem l (idx + Z.of_nat (length l)).
Proof.
  intros H. unfold list_getitem.
  destruct (Z.ltb_spec idx 0); [|lia].
  destruct (Z.ltb_spec (idx + Z.of_nat (length l)) 0); [lia|].
  destruct (Z.ltb_spec (idx + Z.of_nat (length l)) 0); [lia|].
  reflexivity.
Qed.

Lemma list_getitem_outside {A} (l : list A) (idx : Z) :
  (Z.of_nat (length l) <= idx \/ idx < - Z.of_nat (length l))%Z ->
  list_getitem l idx = Raise IndexError.
Proof.
  intros H. unfold list_getitem.
  destruct (Z.ltb_spec idx 0).
  - destruct (Z.ltb_spec (idx + Z.of_nat (length l)) 0); [reflexivity | lia].
  - destruct (Z.ltb_spec idx 0); [lia|].
    destruct (nth_error l (Z.to_nat idx)) eqn:E; [|reflexivity].
    assert (nth_error l (Z.to_nat idx) <> None) as Hn by congruence.
    apply nth_error_Some in Hn. lia.
Qed.

Section IndicesAndFiles.

Context {ndimage_float : NdImage 0%Q} {ndimage_int : NdImage 0%Z}.

(** X10.  [__getitem__] takes its index as a Python list does.  With as
    many mask files as image files, a negative index from [-len] on names
    the sample counted from the end, the one [idx + len] names; an index
    from [len] on or below [-len] raises [IndexError] with nothing loaded
    and no random number drawn. *)
Theorem getitem_index_from_the_end :
  forall fs self idx w,
    (length (mask_files self) = len self ->
     (- Z.of_nat (len self) <= idx < 0)%Z ->
     getitem fs self idx w = getitem fs self (idx + Z.of_nat (len self)) w) /\
    ((Z.of_nat (len self) <= idx \/ idx < - Z.of_nat (len self))%Z ->
     getitem fs self idx w = (Raise IndexError, w)).
Proof.
  intros fs self idx w. unfold len. split.
  - intros Hlen Hidx. unfold getitem.
    rewrite (list_getitem_negative (image_files self) idx Hidx).
    rewrite <- Hlen in Hidx.
    rewrite (list_getitem_negative (mask_files self) idx Hidx).
    now rewrite Hlen.
  - intros Hidx. unfold getitem. unfold bind at 1. unfold lift at 1.
    now rewrite (list_getitem_outside (image_files self) idx Hidx).
Qed.


(** X12.  Without augmentation, volumes of four axes come back with one
    axis of extent 1 in front and their last three axes cut to at most 256,
    256 and 128: a smaller volume is returned smaller, neither padded nor
    refused, and the shape of the mask is not compared with the image's. *)
Theorem getitem_cuts_and_never_pads :
  forall fs self idx w image_file mask_file image mask x d h w' y d' h' w'',
    augment self = false ->
    list_getitem (image_files self) idx = Ok image_file ->
    list_getitem (mask_files self) idx = Ok mask_file ->
    volume fs (os_path_join (image_dir self) image_file) = Some image ->
    volume fs (os_path_join (mask_dir self) mask_file) = Some mask ->
    wf image -> positive_dims (shape image) ->
    shape image = [x; d; h; w'] ->
    shape mask = [y; d'; h'; w''] ->
    exists img msk,
      getitem fs self idx w =
      (Ok (img, msk),
       emit (Load (os_path_join (mask_dir self) mask_file))
         (emit (Load (os_path_join (image_dir self) image_file)) w)) /\
      shape img = [1; x; Nat.min 256 d; Nat.min 256 h; Nat.min 128 w'] /\
      shape msk = [1; y; Nat.min 256 d'; Nat.min 256 h'; Nat.min 128 w''].
Proof.
  intros fs self idx w f g image mask x d h w' y d' h' w''
    Haug Hf Hg Hi Hm Hwf Hpos Hsi Hsm.
  destruct (@getitem_plain_shape _ _ fs self idx w f g image mask
              Haug Hf Hg Hi Hm Hwf Hpos)
    as [img [msk [Hrun [Himg Hmsk]]]].
  - unfold ndim. rewrite Hsi. cbn [length]. lia.
  - unfold ndim. rewrite Hsm. cbn [length]. lia.
  - exists img, msk. split; [exact Hrun|]. split.
    + rewrite Himg, Hsi. reflexivity.
    + rewrite Hmsk, Hsm. reflexivity.
Qed.

(** X13.  A volume without elements (an axis of extent 0) passes the crop
    and makes [image.min()] raise [ValueError], once both files are
    loaded. *)
Theorem getitem_empty_volume :
  forall fs self idx w image_file mask_file image mask,
    list_getitem (image_files self) idx = Ok image_file ->
    list_getitem (mask_files self) idx = Ok mask_file ->
    volume fs (os_path_join (image_dir self) image_file) = Some image ->
    volume fs (os_path_join (mask_dir self) mask_file) = Some mask ->
    4 <= ndim image -> 4 <= ndim mask ->
    values image = [] ->
    getitem fs self idx w =
    (Raise ValueError,
     emit (Load (os_path_join (mask_dir self) mask_file))
       (emit (Load (os_path_join (image_dir self) image_file)) w)).
Proof.
  intros fs self idx w f g image mask Hf Hg Hi Hm Hni Hnm Hempty.
  unfold getitem, bind, lift, nib_load_get_fdata.
  rewrite Hf, Hg, Hi, Hm.
  rewrite (getslice_Ok image window Hni), (getslice_Ok mask window Hnm).
  assert (normalize {| shape := slice_shape window (shape image);
                       body := slice_body window (body image) |} =
          Raise ValueError) as ->.
  { unfold normalize, amin, values. cbn [body].
    pose proof (leaves_slice window (body image)) as Hin.
    unfold values in Hempty. rewrite Hempty in Hin.
    destruct (leaves (slice_body window (body image))) as [|q qs]; auto.
    destruct (Hin q (or_introl eq_refl)). }
  reflexivity.
Qed.

End IndicesAndFiles.

Lemma getitem_index_from_the_end_witness :
  getitem (ndimage_float := nearest 0%Q) (ndimage_int := nearest 0%Z)
    two_scans (two_scans_dataset false) (-1) elsewhere =
  getitem (ndimage_float := nearest 0%Q) (ndimage_int := nearest 0%Z)
    two_scans (two_scans_dataset false)
    (-1 + Z.of_nat (len (two_scans_dataset false))) elsewhere
  /\
  getitem (ndimage_float := nearest 0%Q) (ndimage_int := nearest 0%Z)
    two_scans (two_scans_dataset false) 2 elsewhere =
  (Raise IndexError, elsewhere).
Proof.
  split.
  - apply (proj1 (@getitem_index_from_the_end (nearest 0%Q) (nearest 0%Z)
                    two_scans (two_scans_dataset false) (-1)%Z elsewhere)).
    + reflexivity.
    + change (- 2 <= -1 < 0)%Z. lia.
  - apply (proj2 (@getitem_index_from_the_end (nearest 0%Q) (nearest 0%Z)
                    two_scans (two_scans_dataset false) 2%Z elsewhere)).
    left. change (2 <= 2)%Z. lia.
Defined.


Lemma getitem_cuts_and_never_pads_witness :
  exists img msk,
    getitem (ndimage_float := nearest 0%Q) (ndimage_int := nearest 0%Z)
      (one_scan ramp (np_full [2; 300; 1; 130] 7%Q)) (one_scan_dataset false)
      0 elsewhere =
    (Ok (img, msk),
     emit (Load "masks/case_000.nii.gz")
       (emit (Load "images/case_000.nii.gz") elsewhere)) /\
    shape img = [1; 1; Nat.min 256 1; Nat.min 256 2; Nat.min 128 2] /\
    shape msk = [1; 2; Nat.min 256 300; Nat.min 256 1; Nat.min 128 130].
Proof.
  apply (@getitem_cuts_and_never_pads (nearest 0%Q) (nearest 0%Z)
           (one_scan ramp (np_full [2; 300; 1; 130] 7%Q))
           (one_scan_dataset false) 0%Z elsewhere
           "case_000.nii.gz"%string "case_000.nii.gz"%string
           ramp (np_full [2; 300; 1; 130] 7%Q) 1 1 2 2 2 300 1 130);
    first [reflexivity | vm_compute; repeat constructor].
Defined.

Lemma getitem_empty_volume_witness :
  getitem (ndimage_float := nearest 0%Q) (ndimage_int := nearest 0%Z)
    (one_scan (np_full [1; 0; 4; 4] 0%Q) signed_mask) (one_scan_dataset true)
    0 elsewhere =
  (Raise ValueError,
   emit (Load "masks/case_000.nii.gz")
     (emit (Load "images/case_000.nii.gz") elsewhere)).
Proof.
  apply (@getitem_empty_volume (nearest 0%Q) (nearest 0%Z)
           (one_scan (np_full [1; 0; 4; 4] 0%Q) signed_mask)
           (one_scan_dataset true) 0%Z elsewhere
           "case_000.nii.gz"%string "case_000.nii.gz"%string
           (np_full [1; 0; 4; 4] 0%Q) signed_mask);
    first [reflexivity | vm_compute; lia].
Defined.

(** * dataset.py: more on the normalisation *)

Section Rescaling.

#[local] Open Scope Q_scope.


















End Rescaling.

(** * dataset.py: what the flips do to the elements *)

Lemma item_flip {A} axis : forall s (b : nested A) idx,
  has_shape s b -> axis < length s -> Forall2 lt idx s ->
  item_body idx (flip_body axis b) = item_body (mirror axis s idx) b.
Proof.
  induction axis as [|k IH]; intros s b idx Hb Hax Hidx.
  - destruct s as [|d s]; [simpl in Hax; lia|].
    destruct b as [x|l]; simpl in Hb; [contradiction|]. destruct Hb as [Hl _].
    inversion Hidx as [|i d' idx' s' Hi Hrest]; subst.
    cbn [flip_body mirror item_body].
    rewrite nth_error_rev.
    destruct (Nat.ltb_spec i (length l)); [|lia].
    replace (length l - S i) with (length l - 1 - i) by lia. reflexivity.
  - destruct s as [|d s]; [simpl in Hax; lia|].
    destruct b as [x|l]; simpl in Hb; [contradiction|]. destruct Hb as [Hl Hall].
    inversion Hidx as [|i d' idx' s' Hi Hrest]; subst.
    cbn [flip_body mirror item_body]. rewrite nth_error_map.
    destruct (nth_error l i) as [b'|] eqn:E; cbn [option_map]; [|reflexivity].
    apply IH; auto.
    + rewrite Forall_forall in Hall. apply Hall. eapply nth_error_In; eauto.
    + simpl in Hax. lia.
Qed.

Lemma Permutation_flat_map_pointwise {A B} (f g : A -> list B) l :
  Forall (fun x => Permutation (f x) (g x)) l ->
  Permutation (flat_map f l) (flat_map g l).
Proof.
  induction 1 as [|x l Hx _ IH]; simpl; auto.
  now apply Permutation_app.
Qed.

Lemma Permutation_flat_map_list {A B} (f : A -> list B) l l' :
  Permutation l l' -> Permutation (flat_map f l) (flat_map f l').
Proof.
  induction 1; simpl; auto.
  - now apply Permutation_app_head.
  - rewrite !app_assoc. apply Permutation_app_tail, Permutation_app_comm.
  - eapply Permutation_trans; eauto.
Qed.

Lemma leaves_flip_Permutation {A} (b : nested A) :
  forall axis, Permutation (leaves (flip_body axis b)) (leaves b).
Proof.
  induction b as [x|l IH] using nested_induction; intros axis.
  - reflexivity.
  - destruct axis as [|k]; cbn [flip_body leaves].
    + apply Permutation_flat_map_list, Permutation_sym, Permutation_rev.
    + rewrite flat_map_concat_map, map_map, <- flat_map_concat_map.
      apply Permutation_flat_map_pointwise.
      eapply Forall_impl; [|exact IH]. intros b Hb. apply Hb.
Qed.

(** X17.  A flip that happens keeps the shape of image and mask, holds the
    same values as before, each as often, and moves image and mask alike:
    at every index both arrays hold what they held at the mirrored index,
    so a voxel and its label stay at one position. *)
Theorem flip_step_moves_image_and_mask_alike :
  forall axis image mask w s,
    wf image -> wf mask -> shape image = s -> shape mask = s ->
    axis < length s ->
    above_half (rand w (cursor w)) = true ->
    exists image' mask',
      flip_step axis (image, mask) w = (Ok (image', mask'), advance 1 w) /\
      shape image' = s /\ shape mask' = s /\
      Permutation (values image') (values image) /\
      Permutation (values mask') (values mask) /\
      forall idx, Forall2 lt idx s ->
        item image' idx = item image (mirror axis s idx) /\
        item mask' idx = item mask (mirror axis s idx).
Proof.
  intros axis image mask w s Hwi Hwm Hsi Hsm Hax Hu.
  exists (flipped axis image), (flipped axis mask).
  split.
  { apply (@flip_step_fires axis (image, mask) w Hu); cbn [fst snd];
      unfold ndim; congruence. }
  split; [exact Hsi|]. split; [exact Hsm|].
  split; [apply leaves_flip_Permutation|].
  split; [apply leaves_flip_Permutation|].
  intros idx Hidx. unfold item, flipped. cbn [body]. split.
  - apply item_flip; auto. now rewrite <- Hsi.
  - apply item_flip; auto. now rewrite <- Hsm.
Qed.

Lemma flip_step_moves_image_and_mask_alike_witness :
  exists image' mask',
    flip_step 3 (ramp, small_labels) (flip_only 3) =
    (Ok (image', mask'), advance 1 (flip_only 3)) /\
    shape image' = [1; 1; 2; 2] /\ shape mask' = [1; 1; 2; 2] /\
    Permutation (values image') (values ramp) /\
    Permutation (values mask') (values small_labels) /\
    forall idx, Forall2 lt idx [1; 1; 2; 2] ->
      item image' idx = item ramp (mirror 3 [1; 1; 2; 2] idx) /\
      item mask' idx = item small_labels (mirror 3 [1; 1; 2; 2] idx).
Proof.
  apply (flip_step_moves_image_and_mask_alike 3 ramp small_labels
           (flip_only 3) [1; 1; 2; 2]);
    first [reflexivity | vm_compute; repeat constructor | vm_compute; lia].
Defined.

Example mirror_3 : mirror 3 [1; 1; 2; 2] [0; 0; 1; 0] = [0; 0; 1; 1].
Proof. reflexivity. Qed.

(** * dataset.py: augmentation of a sample of four axes *)

Section Rounding.

#[local] Open Scope Q_scope.

Lemma py_round_ge (q : Q) (k : Z) :
  inject_Z k - (1 # 2) < q -> (k <= py_round q)%Z.
Proof.
  intros Hk. unfold py_round.
  pose proof (Qfloor_le q) as Hlo. pose proof (Qlt_floor q) as Hhi.
  rewrite inject_Z_plus in Hhi. change (inject_Z 1) with 1 in Hhi.
  set (f := Qfloor q) in *.
  destruct (Qcompare_spec (q - inject_Z f) (1 # 2)) as [E|E|E].
  - assert (k < f + 1)%Z as Hz.
    { rewrite Zlt_Qlt, inject_Z_plus. change (inject_Z 1) with 1. lra. }
    destruct (Z.even f); lia.
  - assert (k < f + 1)%Z as Hz.
    { rewrite Zlt_Qlt, inject_Z_plus. change (inject_Z 1) with 1. lra. }
    lia.
  - assert (k < f + 2)%Z as Hz.
    { rewrite Zlt_Qlt, inject_Z_plus. change (inject_Z 2) with 2. lra. }
    lia.
Qed.

Lemma py_round_integer (q : Q) (k : Z) : q == inject_Z k -> py_round q = k.
Proof.
  intros H. unfold py_round.
  assert (Qfloor q = k) as Hf by (rewrite H; apply Qfloor_Z).
  rewrite Hf.
  destruct (Qcompare_spec (q - inject_Z k) (1 # 2)) as [E|E|E];
    try reflexivity; exfalso; lra.
Qed.

End Rounding.

Lemma zoom_shape_4 c d h w z :
  zoom_shape [c; d; h; w] [1%Q; z; z; z] =
  [zoomed c 1; zoomed d z; zoomed h z; zoomed w z].
Proof. reflexivity. Qed.

Lemma zoomed_1 d : zoomed d 1 = d.
Proof.
  unfold zoomed. rewrite (py_round_integer _ (Z.of_nat d)).
  - apply Nat2Z.id.
  - ring.
Qed.

Lemma zoomed_ge d z : (1 <= z)%Q -> d <= zoomed d z.
Proof.
  intros Hz. unfold zoomed.
  assert (Z.of_nat d <= py_round (inject_Z (Z.of_nat d) * z)%Q)%Z; [|lia].
  apply py_round_ge.
  assert (0 <= inject_Z (Z.of_nat d))%Q as Hd.
  { change 0%Q with (inject_Z 0). rewrite <- Zle_Qle. lia. }
  assert (0 <= inject_Z (Z.of_nat d) * (z - 1))%Q as Hp.
  { apply Qmult_le_0_compat; [exact Hd | lra]. }
  lra.
Qed.



Section FourAxes.

Context {ndimage_float : NdImage 0%Q} {ndimage_int : NdImage 0%Z}.



Lemma zoom_step_runs (p : sample) w zi zm :
  above_half (rand w (cursor w)) = true ->
  zoom (fst p)
    (image_zoom_args ((9 # 10) + ((11 # 10) - (9 # 10)) * rand w (1 + cursor w))%Q)
  = Ok zi ->
  zoom (snd p)
    (mask_zoom_args ((9 # 10) + ((11 # 10) - (9 # 10)) * rand w (1 + cursor w))%Q)
  = Ok zm ->
  exists w', zoom_step p w = (Ok (zi, zm), w') /\
             rand w' = rand w /\ cursor w' = 2 + cursor w.
Proof.
  intros Hu Hi Hm. unfold zoom_step.
  unfold bind at 1. unfold random_random at 1. rewrite Hu.
  unfold random_uniform, bind, random_random, ret, ndimage_zoom.
  cbn [rand cursor]. change (S (cursor w)) with (1 + cursor w).
  rewrite Hi, Hm. eexists. split; [reflexivity|]. split; reflexivity.
Qed.


Lemma recrop_aligned (p : sample) w s :
  aligned s p -> 4 <= length s ->
  exists p', recrop p w = (Ok p', w) /\ aligned (slice_shape window s) p'.
Proof.
  intros (Hwi & Hwm & Hsi & Hsm) Hlen.
  unfold recrop, bind, lift, ret.
  rewrite (getslice_Ok (fst p) window), (getslice_Ok (snd p) window)
    by (unfold ndim, window; rewrite ?Hsi, ?Hsm; cbn [length]; lia).
  eexists. split; [reflexivity|].
  repeat split; cbn [fst snd shape]; try congruence;
    unfold wf; cbn [shape body]; now apply has_shape_slice.
Qed.

End FourAxes.

Section AugmentedSample.

Context {ndimage_float : NdImage 0%Q} {ndimage_int : NdImage 0%Z}.


(** X19.  When the zoom happens with a factor of 1 or more (the number
    drawn for it is 1/2 or more), the crop of lines 93-94 brings a sample
    of shape (c,256,256,128) back to exactly that shape. *)
Theorem zoom_in_is_cropped_back :
  forall (p : sample) w c,
    aligned [c; 256; 256; 128] p -> 1 <= c ->
    above_half (rand w (cursor w)) = true ->
    (1 # 2 <= rand w (1 + cursor w))%Q ->
    exists p' w',
      (q <- zoom_step p ;; recrop q) w = (Ok p', w') /\
      aligned [c; 256; 256; 128] p'.
Proof.
  intros p w c Hp Hc Hu Hv.
  pose proof Hp as (Hwi & Hwm & Hsi & Hsm).
  set (z := ((9 # 10) + ((11 # 10) - (9 # 10)) * rand w (1 + cursor w))%Q).
  assert (1 <= z)%Q as Hz by (unfold z; lra).
  assert (zoom_shape [c; 256; 256; 128] [1%Q; z; z; z] =
          [c; zoomed 256 z; zoomed 256 z; zoomed 128 z]) as Hzs.
  { now rewrite zoom_shape_4, zoomed_1. }
  pose proof (zoomed_ge 256 z Hz) as H256.
  pose proof (zoomed_ge 128 z Hz) as H128.
  destruct (zoom_gives_shape (fst p) (image_zoom_args z) Hwi)
    as [zi [Hzi [Hwzi Hszi]]].
  { rewrite Hsi. repeat (constructor; try lia). }
  { unfold ndim. now rewrite Hsi. }
  { rewrite Hsi. cbn [z_zoom image_zoom_args]. rewrite Hzs.
    repeat (constructor; try lia). }
  destruct (zoom_gives_shape (snd p) (mask_zoom_args z) Hwm)
    as [zm [Hzm [Hwzm Hszm]]].
  { rewrite Hsm. repeat (constructor; try lia). }
  { unfold ndim. now rewrite Hsm. }
  { rewrite Hsm. cbn [z_zoom mask_zoom_args]. rewrite Hzs.
    repeat (constructor; try lia). }
  rewrite Hsi in Hszi. rewrite Hsm in Hszm.
  cbn [z_zoom image_zoom_args] in Hszi. cbn [z_zoom mask_zoom_args] in Hszm.
  rewrite Hzs in Hszi, Hszm.
  destruct (zoom_step_runs p w zi zm Hu Hzi Hzm) as [w' [Hrun _]].
  destruct (recrop_aligned (zi, zm) w' _
              (conj Hwzi (conj Hwzm (conj Hszi Hszm))) ltac:(cbn [length]; lia))
    as [p' [Hcrop Hp']].
  exists p', w'. split.
  - now rewrite (@bind_Ok _ _ _ _ _ _ _ _ Hrun).
  - unfold window in Hp'. cbn [slice_shape take_len] in Hp'.
    now rewrite !Nat.min_l in Hp' by assumption.
Qed.

End AugmentedSample.



Lemma zoom_in_is_cropped_back_witness :
  exists p' w',
    (q <- zoom_step (ndimage_float := nearest 0%Q) (ndimage_int := nearest 0%Z)
            (np_full [1; 256; 256; 128] 0%Q, np_full [1; 256; 256; 128] 0%Z) ;;
     recrop q) steady = (Ok p', w') /\
    aligned [1; 256; 256; 128] p'.
Proof.
  apply (@zoom_in_is_cropped_back (nearest 0%Q) (nearest 0%Z)
           (np_full [1; 256; 256; 128] 0%Q, np_full [1; 256; 256; 128] 0%Z)
           steady 1).
  - split; [apply wf_full | split; [apply wf_full | split; reflexivity]].
  - lia.
  - reflexivity.
  - discriminate.
Defined.

(** * dataset.py: augmentation inside [__getitem__] *)

Lemma normalize_Ok_shape (a r : ndarray Q) :
  normalize a = Ok r -> shape r = shape a /\ (wf a -> wf r).
Proof.
  unfold normalize. intros H.
  destruct (amin a) as [lo|]; [|discriminate].
  destruct (amax a) as [hi|]; [|discriminate].
  cbn [rbind] in H. apply Ok_inj in H. subst r.
  destruct (negb _); split; auto. intros Hwf. now apply has_shape_nmap.
Qed.

Lemma wf_expand_dims0 {A} (a : ndarray A) : wf a -> wf (expand_dims0 a).
Proof.
  intros H. unfold wf, expand_dims0. cbn [shape body has_shape length].
  split; [reflexivity|]. now repeat constructor.
Qed.

Section Augmented.

Context {ndimage_float : NdImage 0%Q} {ndimage_int : NdImage 0%Z}.

Lemma apply_augmentation_idle image mask w :
  idle w -> 4 <= ndim image -> 4 <= ndim mask ->
  apply_augmentation image mask w =
  (Ok (windowed image, windowed mask), advance 5 w).
Proof.
  intros Hw Hi Hm.
  pose proof (Hw 0 ltac:(lia)) as H0. pose proof (Hw 1 ltac:(lia)) as H1.
  pose proof (Hw 2 ltac:(lia)) as H2. pose proof (Hw 3 ltac:(lia)) as H3.
  pose proof (Hw 4 ltac:(lia)) as H4.
  unfold apply_augmentation.
  rewrite (@bind_Ok _ _ _ _ _ _ _ _ (@flip_step_skips 3 (image, mask) w H0)).
  rewrite (@bind_Ok _ _ _ _ _ _ _ _
             (@flip_step_skips 2 (image, mask) (advance 1 w) H1)).
  rewrite (@bind_Ok _ _ _ _ _ _ _ _
             (@flip_step_skips 1 (image, mask) (advance 2 w) H2)).
  rewrite (@bind_Ok _ _ _ _ _ _ _ _
             (@rotation_step_skips _ _ (image, mask) (advance 3 w) H3)).
  rewrite (@bind_Ok _ _ _ _ _ _ _ _
             (@zoom_step_skips _ _ (image, mask) (advance 4 w) H4)).
  unfold recrop, bind, lift, ret. cbn [fst snd].
  now rewrite (getslice_Ok image window Hi), (getslice_Ok mask window Hm).
Qed.

(** X20.  With augmentation on and no decision to act, [__getitem__] still
    cuts the sample a second time, and on the axes after the one it has
    added: extent 256 is asked of the file's first axis and of its second,
    128 of its third, nothing of its fourth.  A volume of shape
    (x,d,h,w) comes back as (1, min 256 x, min 256 d, min 128 h, min 128 w),
    a (1,256,256,128) scan as (1,1,256,128,128). *)
Theorem getitem_augmented_cuts_shifted_axes :
  forall fs self idx w image_file mask_file image mask x d h w0 y d' h' w1,
    augment self = true ->
    list_getitem (image_files self) idx = Ok image_file ->
    list_getitem (mask_files self) idx = Ok mask_file ->
    volume fs (os_path_join (image_dir self) image_file) = Some image ->
    volume fs (os_path_join (mask_dir self) mask_file) = Some mask ->
    wf image -> positive_dims (shape image) ->
    shape image = [x; d; h; w0] ->
    shape mask = [y; d'; h'; w1] ->
    idle w ->
    exists img msk w',
      getitem fs self idx w = (Ok (img, msk), w') /\
      shape img = [1; Nat.min 256 x; Nat.min 256 d; Nat.min 128 h;
                   Nat.min 128 w0] /\
      shape msk = [1; Nat.min 256 y; Nat.min 256 d'; Nat.min 128 h';
                   Nat.min 128 w1].
Proof.
  intros fs self idx w f g image mask x d h w0 y d' h' w1
    Haug Hf Hg Hi Hm Hwf Hpos Hsi Hsm Hidle.
  assert (4 <= ndim image) as Hni by (unfold ndim; rewrite Hsi; cbn [length]; lia).
  assert (4 <= ndim mask) as Hnm by (unfold ndim; rewrite Hsm; cbn [length]; lia).
  destruct (@normalize_total (windowed image)) as [ni [Hnorm [Hshape _]]].
  { apply leaves_nonempty with (slice_shape window (shape image)).
    - now apply has_shape_slice.
    - apply positive_slice_shape; [apply positive_window | assumption]. }
  set (w2 := emit (Load (os_path_join (mask_dir self) g))
               (emit (Load (os_path_join (image_dir self) f)) w)).
  assert (idle w2) as Hidle2 by exact Hidle.
  pose proof (apply_augmentation_idle
                (expand_dims0 (astype_float32 ni))
                (expand_dims0 (np_clip0 (astype_int64 (windowed mask)))) w2
                Hidle2) as Hrun.
  exists (windowed (expand_dims0 (astype_float32 ni))),
         (windowed (expand_dims0 (np_clip0 (astype_int64 (windowed mask))))),
         (advance 5 w2).
  split.
  - unfold getitem, bind, lift, nib_load_get_fdata.
    rewrite Hf, Hg, Hi, Hm.
    rewrite (getslice_Ok image window Hni), (getslice_Ok mask window Hnm).
    fold (windowed image). fold (windowed mask). rewrite Hnorm, Haug.
    fold w2. rewrite Hrun; [reflexivity| |].
    + unfold ndim, astype_float32. cbn [shape expand_dims0 length].
      rewrite Hshape. cbn [shape windowed]. rewrite slice_shape_length.
      unfold ndim in Hni. lia.
    + unfold ndim. cbn [shape expand_dims0 np_clip0 astype_int64 amap windowed length].
      rewrite slice_shape_length. unfold ndim in Hnm. lia.
  - unfold astype_float32. cbn [shape windowed expand_dims0 np_clip0 astype_int64 amap].
    rewrite Hshape. cbn [shape windowed]. rewrite Hsi, Hsm.
    unfold window. cbn [slice_shape take_len]. split; f_equal; f_equal.
    + f_equal; [lia | f_equal; lia].
    + f_equal; [lia | f_equal; lia].
Qed.

End Augmented.

Lemma idle_quiet j : idle (advance j quiet).
Proof. intros k Hk. reflexivity. Qed.

Lemma getitem_augmented_cuts_shifted_axes_witness :
  exists img msk w',
    getitem (ndimage_float := nearest 0%Q) (ndimage_int := nearest 0%Z)
      (one_scan (np_full [1; 256; 256; 128] 0%Q)
                (np_full [1; 256; 256; 128] 0%Q))
      (one_scan_dataset true) 0 quiet = (Ok (img, msk), w') /\
    shape img = [1; Nat.min 256 1; Nat.min 256 256; Nat.min 128 256;
                 Nat.min 128 128] /\
    shape msk = [1; Nat.min 256 1; Nat.min 256 256; Nat.min 128 256;
                 Nat.min 128 128].
Proof.
  apply (@getitem_augmented_cuts_shifted_axes (nearest 0%Q) (nearest 0%Z)
           (one_scan (np_full [1; 256; 256; 128] 0%Q)
                     (np_full [1; 256; 256; 128] 0%Q))
           (one_scan_dataset true) 0%Z quiet
           "case_000.nii.gz"%string "case_000.nii.gz"%string
           (np_full [1; 256; 256; 128] 0%Q) (np_full [1; 256; 256; 128] 0%Q)
           1 256 256 128 1 256 256 128);
    first [reflexivity | apply wf_full | apply (idle_quiet 0)
          | repeat (constructor; try lia)].
Defined.

Lemma no_new_zoom_refl w : no_new_zoom w w.
Proof. now intros args H. Qed.

Lemma no_new_zoom_trans w1 w2 w3 :
  no_new_zoom w1 w2 -> no_new_zoom w2 w3 -> no_new_zoom w1 w3.
Proof. intros H12 H23 args H. now apply H12, H23. Qed.

Lemma no_new_zoom_same_events w w' : events w' = events w -> no_new_zoom w w'.
Proof. intros E args H. now rewrite <- E. Qed.

Lemma no_new_zoom_emit w e :
  (forall args, e <> Zoom args) -> no_new_zoom w (emit e w).
Proof.
  intros He args H. cbn [events emit] in H. apply in_app_or in H.
  destruct H as [H|[H|[]]]; auto. now contradiction (He args).
Qed.

Section NeverZoomed.

Context {ndimage_float : NdImage 0%Q} {ndimage_int : NdImage 0%Z}.

Lemma flip_step_Ok_inv axis (p p' : sample) w w' :
  flip_step axis p w = (Ok p', w') ->
  events w' = events w /\ shape (fst p') = shape (fst p) /\
  (wf (fst p) -> wf (fst p')).
Proof.
  unfold flip_step. intros H. bind_inv H u w1 Hu.
  unfold random_random in Hu. injection Hu as <- <-.
  destruct (above_half _).
  - bind_inv H image w2 Hi. bind_inv H mask w3 Hm. ret_inv H.
    lift_inv Hi. lift_inv Hm. unfold np_flip in Hi.
    destruct (axis <? ndim (fst p)); [|discriminate].
    apply Ok_inj in Hi. subst image. cbn [fst shape events].
    repeat split. apply has_shape_flip.
  - ret_inv H. auto.
Qed.

Lemma rotation_step_Ok_inv (p p' : sample) w w' :
  rotation_step p w = (Ok p', w') ->
  wf (fst p) -> positive_dims (shape (fst p)) -> 4 <= ndim (fst p) ->
  no_new_zoom w w' /\ shape (fst p') = shape (fst p) /\ wf (fst p').
Proof.
  unfold rotation_step. intros H Hwf Hpos Hn. bind_inv H u w1 Hu.
  unfold random_random in Hu. injection Hu as <- <-.
  destruct (above_half _).
  - bind_inv H angle w2 Ha. bind_inv H image w3 Hi. bind_inv H mask w4 Hm.
    ret_inv H. unfold random_uniform, bind, random_random, ret in Ha.
    injection Ha as <- <-.
    unfold ndimage_rotate in Hi, Hm.
    injection Hi as Hi <-. injection Hm as Hm <-.
    destruct (rotate_keeps_shape (fst p) (image_rotate_args
               (-30 + (30 - -30) * rand w (S (cursor w)))%Q) Hwf Hpos)
      as [a' [Ha' [Hwa' Hsa']]];
      try (cbn [r_axes image_rotate_args fst snd]; lia); try reflexivity.
    rewrite Hi in Ha'. apply Ok_inj in Ha'. subst a'.
    cbn [fst]. split; [|split; assumption].
    eapply no_new_zoom_trans; [|apply no_new_zoom_emit; intros; discriminate].
    eapply no_new_zoom_trans; [|apply no_new_zoom_emit; intros; discriminate].
    now apply no_new_zoom_same_events.
  - ret_inv H. split; [|auto]. now apply no_new_zoom_same_events.
Qed.

Lemma zoom_step_Ok_inv (p p' : sample) w w' :
  zoom_step p w = (Ok p', w') -> ndim (fst p) <> 4 ->
  events w' = events w.
Proof.
  unfold zoom_step. intros H Hn. bind_inv H u w1 Hu.
  unfold random_random in Hu. injection Hu as <- <-.
  destruct (above_half _).
  - exfalso. bind_inv H z w2 Hz. bind_inv H image w3 Hi.
    unfold ndimage_zoom in Hi. injection Hi as Hi _.
    rewrite zoom_rank in Hi; [discriminate|].
    cbn [z_zoom image_zoom_args length]. congruence.
  - ret_inv H. reflexivity.
Qed.

Lemma recrop_Ok_inv (p p' : sample) w w' :
  recrop p w = (Ok p', w') -> w' = w.
Proof.
  unfold recrop. intros H. bind_inv H image w1 Hi. bind_inv H mask w2 Hm.
  ret_inv H. lift_inv Hi. lift_inv Hm. reflexivity.
Qed.

Lemma apply_augmentation_never_zooms_five_axes image mask w p' w' :
  apply_augmentation image mask w = (Ok p', w') ->
  wf image -> positive_dims (shape image) -> 5 <= ndim image ->
  no_new_zoom w w'.
Proof.
  unfold apply_augmentation. intros H Hwf Hpos Hn.
  bind_inv H p1 w1 H1. bind_inv H p2 w2 H2. bind_inv H p3 w3 H3.
  bind_inv H p4 w4 H4. bind_inv H p5 w5 H5.
  apply flip_step_Ok_inv in H1. destruct H1 as (E1 & S1 & W1).
  apply flip_step_Ok_inv in H2. destruct H2 as (E2 & S2 & W2).
  apply flip_step_Ok_inv in H3. destruct H3 as (E3 & S3 & W3).
  cbn [fst] in S1, W1.
  assert (shape (fst p3) = shape image) as S by congruence.
  apply rotation_step_Ok_inv in H4;
    [| now auto | now rewrite S | unfold ndim in *; rewrite S; lia].
  destruct H4 as (Z4 & S4 & W4).
  apply zoom_step_Ok_inv in H5;
    [| unfold ndim in *; rewrite S4, S; lia].
  apply recrop_Ok_inv in H. subst w'.
  intros args Hin. rewrite H5 in Hin. apply Z4 in Hin.
  now rewrite E3, E2, E1 in Hin.
Qed.

(** X21.  A sample [__getitem__] returns has never been zoomed.  With
    files that hold well-formed volumes without an axis of extent 0, a call
    that returns has made no call of [zoom]: the sample has one axis more
    than the four factors line 89 passes, so whenever the zoom is drawn the
    call raises. *)
Theorem getitem_never_returns_a_zoomed_sample :
  forall fs self idx w r w',
    (forall path a, volume fs path = Some a ->
                    wf a /\ positive_dims (shape a)) ->
    getitem fs self idx w = (Ok r, w') ->
    no_new_zoom w w'.
Proof.
  intros fs self idx w r w' Hfiles H.
  apply getitem_Ok_inv in H.
  destruct H as (f & g & vi & vm & ci & cm & ni & _ & _ & Hvi & _ & Hci & _ & Hni & H).
  destruct (Hfiles _ _ Hvi) as [Hwf Hpos].
  set (w2 := emit (Load (os_path_join (mask_dir self) g))
               (emit (Load (os_path_join (image_dir self) f)) w)) in *.
  assert (no_new_zoom w w2) as Hloads.
  { eapply no_new_zoom_trans; apply no_new_zoom_emit; intros; discriminate. }
  destruct (augment self).
  2:{ apply ret_Ok_inv in H. destruct H as [_ ->]. exact Hloads. }
  unfold getslice in Hci.
  destruct (Nat.leb_spec (length window) (ndim vi)) as [Hlen|]; [|discriminate].
  apply Ok_inj in Hci. subst ci.
  apply normalize_Ok_shape in Hni. destruct Hni as [Hs Hw].
  cbn [shape] in Hs.
  eapply no_new_zoom_trans; [exact Hloads|].
  apply (apply_augmentation_never_zooms_five_axes _ _ _ _ _ H).
  - apply wf_expand_dims0, Hw. unfold wf. cbn [shape body].
    now apply has_shape_slice.
  - unfold astype_float32. cbn [shape expand_dims0]. rewrite Hs.
    constructor; [lia|].
    apply positive_slice_shape; [apply positive_window | assumption].
  - unfold ndim, astype_float32. cbn [shape expand_dims0 length].
    rewrite Hs, slice_shape_length. unfold ndim, window in Hlen.
    cbn [length] in Hlen. lia.
Qed.

End NeverZoomed.

Lemma one_scan_volumes image mask :
  wf image -> positive_dims (shape image) ->
  wf mask -> positive_dims (shape mask) ->
  forall path a, volume (one_scan image mask) path = Some a ->
                 wf a /\ positive_dims (shape a).
Proof.
  intros Hwi Hpi Hwm Hpm path a. unfold one_scan. cbn [volume].
  destruct (String.eqb path "images/case_000.nii.gz").
  - intros [= <-]. auto.
  - destruct (String.eqb path "masks/case_000.nii.gz"); [|discriminate].
    intros [= <-]. auto.
Qed.

Lemma getitem_never_returns_a_zoomed_sample_witness :
  exists r w',
    getitem (ndimage_float := nearest 0%Q) (ndimage_int := nearest 0%Z)
      (one_scan ramp signed_mask) (one_scan_dataset true) 0
      flips_and_rotation = (Ok r, w') /\
    no_new_zoom flips_and_rotation w'.
Proof.
  do 2 eexists. split; [vm_compute; reflexivity|].
  eapply (@getitem_never_returns_a_zoomed_sample (nearest 0%Q) (nearest 0%Z)
            (one_scan ramp signed_mask) (one_scan_dataset true) 0%Z
            flips_and_rotation).
  - apply one_scan_volumes; vm_compute; repeat constructor.
  - vm_compute. reflexivity.
Defined.

Example getitem_zoom_drawn :
  fst (getitem (ndimage_float := nearest 0%Q) (ndimage_int := nearest 0%Z)
         (one_scan ramp signed_mask) (one_scan_dataset true) 0 steady) =
  Raise RuntimeError.
Proof. vm_compute. reflexivity. Qed.
